(** * Deal sniper: title parser, feed cache, aggregation and preference filter

    A shallow embedding of [main.py].

    - A Python [str] is a list of characters.  A character is a code point
      in the range U+0000..U+00FF, carried by [ascii]; the character
      classes below ([\s], [\d], [str.lower], [str.strip]) are the ones
      Python uses on that range.
    - A Python [float] is an IEEE 754 binary64 value, carried by
      [spec_float] with precision 53 and maximal exponent 1024.
    - An exception is an explicit outcome ([result]); [try ... except
      Exception] is a case analysis on it.
    - The module-level [cache] dictionary and the calls made to
      [feedparser.parse] form the explicit state [World]; [time.time()] is
      an argument of the scraping functions. *)

From Stdlib Require Import List Ascii String ZArith NArith Bool Lia SpecFloat.
Import ListNotations.

(** ** Strings *)

Definition str := list ascii.

(** A literal of the source. *)
Definition py (s : string) : str := list_ascii_of_string s.

Definition code (c : ascii) : N := N_of_ascii c.

Definition in_range (lo hi : N) (c : ascii) : bool :=
  ((lo <=? code c) && (code c <=? hi))%N.

(** [A-Za-z] *)
Definition is_letter (c : ascii) : bool :=
  in_range 65 90 c || in_range 97 122 c.

(** [\s] of [re] on [str], and the characters [str.strip()] removes:
    U+0009..U+000D, U+001C..U+0020, U+0085 and U+00A0. *)
Definition is_space (c : ascii) : bool :=
  in_range 9 13 c || in_range 28 32 c || (code c =? 133)%N || (code c =? 160)%N.

(** [\d]: the decimal digits; below U+0100 these are [0-9]. *)
Definition is_digit (c : ascii) : bool := in_range 48 57 c.

(** [.] without DOTALL: anything but a line feed. *)
Definition is_dot (c : ascii) : bool := negb (code c =? 10)%N.

(** [str.lower()], character by character: [A-Z] and the upper-case
    letters U+00C0..U+00DE (but not the multiplication sign U+00D7) move up
    by 32. *)
Definition lower_char (c : ascii) : ascii :=
  if in_range 65 90 c || (in_range 192 222 c && negb (code c =? 215)%N)
  then ascii_of_N (code c + 32)
  else c.

Definition lower (s : str) : str := map lower_char s.

Fixpoint lstrip (s : str) : str :=
  match s with
  | c :: s' => if is_space c then lstrip s' else s
  | [] => []
  end.

Definition rstrip (s : str) : str := rev (lstrip (rev s)).

(** [s.strip()] *)
Definition strip (s : str) : str := rstrip (lstrip s).

Definition str_eqb (a b : str) : bool :=
  if list_eq_dec ascii_dec a b then true else false.

Fixpoint startswith (s pre : str) {struct pre} : bool :=
  match pre, s with
  | [], _ => true
  | a :: pre', c :: s' => Ascii.eqb a c && startswith s' pre'
  | _ :: _, [] => false
  end.

(** [sub in s] on two strings. *)
Fixpoint contains (s sub : str) : bool :=
  startswith s sub ||
  match s with
  | [] => false
  | _ :: s' => contains s' sub
  end.

(** ** Floats *)

Definition float := spec_float.

Definition float_of_Z (z : Z) : float := binary_normalize 53 1024 z 0 false.

Definition float_sub (x y : float) : float := SFsub 53 1024 x y.

(** [x < y], [x <= y] and [x > y] on floats. *)
Definition float_lt (x y : float) : bool := SFltb x y.
Definition float_le (x y : float) : bool := SFleb x y.
Definition float_gt (x y : float) : bool := SFltb y x.

Definition is_nan (x : float) : bool :=
  match x with S754_nan => true | _ => false end.

Definition is_finite (x : float) : bool :=
  match x with S754_zero _ | S754_finite _ _ _ => true | _ => false end.

(** [bool(x)] of a float: false exactly for the two zeros. *)
Definition float_truthy (x : float) : bool :=
  match x with S754_zero _ => false | _ => true end.

(** ** Exceptions *)

Inductive exn : Type := ValueError | AttributeError | FeedError.

Definition result (A : Type) : Type := (exn + A)%type.

Definition ret {A} (a : A) : result A := inr a.
Definition raise {A} (e : exn) : result A := inl e.

Definition bind {A B} (m : result A) (k : A -> result B) : result B :=
  match m with
  | inl e => inl e
  | inr a => k a
  end.

Notation "x <- m ;; k" := (bind m (fun x => k))
  (at level 61, m at next level, right associativity).

(** ** The data model *)

Record UserPreferences : Type := {
  departure_airports : list str;
  destination_keywords : list str;
  max_price : option float;
  prefs_currency : option str
}.

Record TravelDeal : Type := {
  title : str;
  link : str;
  price : option float;
  currency : option str;
  departure : option str;
  destination : option str
}.

Record CacheEntry : Type := {
  timestamp : float;
  data : list TravelDeal
}.

(** The [cache] dictionary: its two keys are fixed. *)
Record Cache : Type := {
  secret_flying : CacheEntry;
  the_flight_deal : CacheEntry
}.

Definition cache_init : Cache := {|
  secret_flying := {| timestamp := S754_zero false; data := [] |};
  the_flight_deal := {| timestamp := S754_zero false; data := [] |}
|}.

Definition CACHE_TTL : float := float_of_Z 300.

(** An entry of a parsed feed; reading an attribute the entry lacks raises
    [AttributeError]. *)
Record Entry : Type := {
  entry_title : option str;
  entry_link : option str
}.

Definition getattr (a : option str) : result str :=
  match a with
  | Some v => ret v
  | None => raise AttributeError
  end.

(** The process state: the cache, and the URLs handed to
    [feedparser.parse] so far, oldest first. *)
Record World : Type := {
  cache : Cache;
  fetched : list str
}.

(** ** The regular expression

    Backtracking combinators in continuation style: each takes the rest of
    the subject and the continuation matching what follows, and yields the
    first success in the order [re] tries the alternatives. *)

Section Backtracking.

Variable R : Type.

(** A literal. *)
Fixpoint re_lit (l s : str) (k : str -> option R) : option R :=
  match l with
  | [] => k s
  | a :: l' =>
      match s with
      | c :: s' => if Ascii.eqb a c then re_lit l' s' k else None
      | [] => None
      end
  end.

(** [[class]*], greedy: the longest run first, then shorter ones. *)
Fixpoint re_star (p : ascii -> bool) (s : str) (k : str -> str -> option R)
  : option R :=
  match s with
  | c :: s' =>
      if p c then
        match re_star p s' (fun g rest => k (c :: g) rest) with
        | Some r => Some r
        | None => k [] s
        end
      else k [] s
  | [] => k [] s
  end.

(** [([class]+)], greedy, capturing. *)
Definition re_plus (p : ascii -> bool) (s : str) (k : str -> str -> option R)
  : option R :=
  match s with
  | c :: s' =>
      if p c then re_star p s' (fun g rest => k (c :: g) rest) else None
  | [] => None
  end.

(** [[class]*?], lazy: the shortest run first, then longer ones. *)
Fixpoint re_star_lazy (p : ascii -> bool) (s : str) (k : str -> option R)
  : option R :=
  match k s with
  | Some r => Some r
  | None =>
      match s with
      | c :: s' => if p c then re_star_lazy p s' k else None
      | [] => None
      end
  end.

End Backtracking.

Arguments re_lit {R} l s k.
Arguments re_star {R} p s k.
Arguments re_plus {R} p s k.
Arguments re_star_lazy {R} p s k.

(** [[A-Za-z\s]] and [[A-Za-z,\s]] *)
Definition origin_char (c : ascii) : bool := is_letter c || is_space c.
Definition destination_char (c : ascii) : bool :=
  is_letter c || Ascii.eqb c ","%char || is_space c.

(** [([A-Za-z\s]+) to ([A-Za-z,\s]+).*?\$(\d+)] anchored at the head of [s];
    the three groups. *)
Definition re_match (s : str) : option (str * str * str) :=
  re_plus origin_char s (fun g1 s1 =>
  re_lit (py " to ") s1 (fun s2 =>
  re_plus destination_char s2 (fun g2 s3 =>
  re_star_lazy is_dot s3 (fun s4 =>
  re_lit (py "$") s4 (fun s5 =>
  re_plus is_digit s5 (fun g3 _ => Some (g1, g2, g3))))))).

(** [re.search]: the match at the leftmost position that has one. *)
Fixpoint re_search (s : str) : option (str * str * str) :=
  match re_match s with
  | Some m => Some m
  | None =>
      match s with
      | [] => None
      | _ :: s' => re_search s'
      end
  end.

(** ** [float(...)] *)

Definition digit_value (c : ascii) : Z := Z.of_N (code c) - 48.

(** The number a run of decimal digits denotes. *)
Definition decimal (ds : str) : Z :=
  fold_left (fun acc c => 10 * acc + digit_value c)%Z ds 0%Z.

Section Program.

(** What the builtin [float] does with a string that is not a run of
    decimal digits. *)
Variable float_other : str -> result float.

(** [float(s)]: a run of digits gives the nearest binary64 value. *)
Definition py_float (s : str) : result float :=
  match s with
  | _ :: _ => if forallb is_digit s then ret (float_of_Z (decimal s))
              else float_other s
  | [] => float_other s
  end.

(** ** [parse_deal] *)

(** The body of the [try] block; [None] when control leaves it without
    returning. *)
Definition parse_deal_try (title link : str) : result (option TravelDeal) :=
  match re_search title with
  | Some (g1, g2, g3) =>
      let departure := strip g1 in
      let destination := strip g2 in
      price <- py_float g3 ;;
      ret (Some {| title := title;
                   link := link;
                   price := Some price;
                   currency := Some (py "USD");
                   departure := Some departure;
                   destination := Some destination |})
  | None => ret None
  end.

Definition parse_deal (title link : str) : result (option TravelDeal) :=
  match parse_deal_try title link with
  | inr (Some deal) => ret (Some deal)
  | inr None => ret None
  | inl _ => ret None
  end.

(** ** The two scrapers *)

(** [feedparser.parse(url).entries], given the URLs fetched before; it may
    raise. *)
Variable feedparser_parse : list str -> str -> result (list Entry).

(** The [for entry in feed.entries] loop, [deals] being the list built so
    far. *)
Fixpoint collect_deals (entries : list Entry) (deals : list TravelDeal)
  : result (list TravelDeal) :=
  match entries with
  | [] => ret deals
  | entry :: entries' =>
      t <- getattr (entry_title entry) ;;
      l <- getattr (entry_link entry) ;;
      deal <- parse_deal t l ;;
      match deal with
      | Some d => collect_deals entries' (deals ++ [d])
      | None => collect_deals entries' deals
      end
  end.

(** The body of the [try] block of a scraper, run in world [w]. *)
Definition scrape_try (url : str) (w : World) : result (list TravelDeal) :=
  entries <- feedparser_parse (fetched w) url ;;
  collect_deals entries [].

Definition record_fetch (url : str) (w : World) : World :=
  {| cache := cache w; fetched := fetched w ++ [url] |}.

Definition secret_flying_url : str := py "https://www.secretflying.com/feed/".
Definition the_flight_deal_url : str :=
  py "https://feeds.feedburner.com/theflightdeal".

Definition scrape_secret_flying (current_time : float) (w : World)
  : list TravelDeal * World :=
  if float_lt (float_sub current_time (timestamp (secret_flying (cache w))))
              CACHE_TTL
  then (data (secret_flying (cache w)), w)
  else
    let w1 := record_fetch secret_flying_url w in
    match scrape_try secret_flying_url w with
    | inr deals =>
        (deals,
         {| cache := {| secret_flying :=
                          {| timestamp := current_time; data := deals |};
                        the_flight_deal := the_flight_deal (cache w1) |};
            fetched := fetched w1 |})
    | inl _ => ([], w1)
    end.

Definition scrape_the_flight_deal (current_time : float) (w : World)
  : list TravelDeal * World :=
  if float_lt (float_sub current_time (timestamp (the_flight_deal (cache w))))
              CACHE_TTL
  then (data (the_flight_deal (cache w)), w)
  else
    let w1 := record_fetch the_flight_deal_url w in
    match scrape_try the_flight_deal_url w with
    | inr deals =>
        (deals,
         {| cache := {| secret_flying := secret_flying (cache w1);
                        the_flight_deal :=
                          {| timestamp := current_time; data := deals |} |};
            fetched := fetched w1 |})
    | inl _ => ([], w1)
    end.

(** ** [filter_deals] *)

(** [bool(s)] of an optional string: [None] and the empty string are
    false. *)
Definition str_truthy (o : option str) : bool :=
  match o with
  | Some (_ :: _) => true
  | _ => false
  end.

Definition opt_float_truthy (o : option float) : bool :=
  match o with
  | Some x => float_truthy x
  | None => false
  end.

(** [deal.departure and deal.departure not in prefs.departure_airports] *)
Definition departure_rejected (deal : TravelDeal) (prefs : UserPreferences)
  : bool :=
  str_truthy (departure deal) &&
  match departure deal with
  | Some d => negb (existsb (str_eqb d) (departure_airports prefs))
  | None => false
  end.

(** [deal.destination and not any(kw.lower() in deal.destination.lower()
    for kw in prefs.destination_keywords)] *)
Definition destination_rejected (deal : TravelDeal) (prefs : UserPreferences)
  : bool :=
  str_truthy (destination deal) &&
  match destination deal with
  | Some d =>
      negb (existsb (fun kw => contains (lower d) (lower kw))
                    (destination_keywords prefs))
  | None => false
  end.

(** [prefs.max_price and deal.price and deal.price > prefs.max_price] *)
Definition price_rejected (deal : TravelDeal) (prefs : UserPreferences)
  : bool :=
  opt_float_truthy (max_price prefs) &&
  opt_float_truthy (price deal) &&
  match price deal, max_price prefs with
  | Some p, Some m => float_gt p m
  | _, _ => false
  end.

(** The three predicates of the filter: a deal passes one when the
    corresponding [continue] is not taken. *)
Definition departure_passes (deal : TravelDeal) (prefs : UserPreferences)
  : bool := negb (departure_rejected deal prefs).
Definition destination_passes (deal : TravelDeal) (prefs : UserPreferences)
  : bool := negb (destination_rejected deal prefs).
Definition price_passes (deal : TravelDeal) (prefs : UserPreferences)
  : bool := negb (price_rejected deal prefs).

(** The [for deal in deals] loop, [filtered] being the list built so far. *)
Fixpoint filter_loop (deals : list TravelDeal) (prefs : UserPreferences)
  (filtered : list TravelDeal) : list TravelDeal :=
  match deals with
  | [] => filtered
  | deal :: deals' =>
      if departure_rejected deal prefs then filter_loop deals' prefs filtered
      else if destination_rejected deal prefs
      then filter_loop deals' prefs filtered
      else if price_rejected deal prefs then filter_loop deals' prefs filtered
      else filter_loop deals' prefs (filtered ++ [deal])
  end.

Definition filter_deals (deals : list TravelDeal) (prefs : UserPreferences)
  : list TravelDeal := filter_loop deals prefs [].

(** ** [find_deals] *)

(** [all_deals = scrape_secret_flying() + scrape_the_flight_deal()]; the two
    readings of the clock are [t1] and [t2]. *)
Definition all_deals (t1 t2 : float) (w : World) : list TravelDeal * World :=
  let '(sf, w1) := scrape_secret_flying t1 w in
  let '(tfd, w2) := scrape_the_flight_deal t2 w1 in
  (sf ++ tfd, w2).

Definition find_deals (prefs : UserPreferences) (t1 t2 : float) (w : World)
  : list TravelDeal * World :=
  let '(deals, w') := all_deals t1 t2 w in
  match deals with
  | [] => ([], w')
  | _ :: _ => (filter_deals deals prefs, w')
  end.

End Program.

(** ** Notions used to state the properties *)

(** A string is empty, or starts with a character outside the class. *)
Definition head_fails (p : ascii -> bool) (s : str) : bool :=
  match s with
  | [] => true
  | c :: _ => negb (p c)
  end.

(** [bool(s)] of a string. *)
Definition nonempty (s : str) : bool :=
  match s with
  | [] => false
  | _ :: _ => true
  end.

(** Any character but the dollar sign. *)
Definition not_dollar (c : ascii) : bool := negb (Ascii.eqb c "$"%char).

(** A title laid out as [<A> to <B> ... $<N>], followed by [tail]. *)
Definition shaped (A B mid N tail : str) : str :=
  A ++ py " to " ++ B ++ mid ++ py "$" ++ N ++ tail.

(** [A] is an origin of letters and white space, [B] is the whole
    destination of letters, commas and white space, [mid] has no dollar
    sign, and [N] is the whole run of digits after the dollar sign. *)
Definition title_shape (A B mid N tail : str) : bool :=
  nonempty A && forallb origin_char A &&
  nonempty B && forallb destination_char B &&
  head_fails destination_char mid && forallb not_dollar mid &&
  nonempty N && forallb is_digit N && head_fails is_digit tail.

(** What the three groups of a match and the text skipped before the
    dollar sign look like. *)
Definition groups_ok (g1 g2 mid g3 : str) : Prop :=
  (g1 <> [] /\ forallb origin_char g1 = true) /\
  (g2 <> [] /\ forallb destination_char g2 = true) /\
  forallb is_dot mid = true /\
  (g3 <> [] /\ forallb is_digit g3 = true).

(** The deal [parse_deal] builds from the three groups. *)
Definition deal_of (title link g1 g2 g3 : str) : TravelDeal :=
  {| title := title;
     link := link;
     price := Some (float_of_Z (decimal g3));
     currency := Some (py "USD");
     departure := Some (strip g1);
     destination := Some (strip g2) |}.

(** The integer a float stands for, when it stands for one. *)
Definition float_to_Z (x : float) : option Z :=
  match x with
  | S754_zero _ => Some 0%Z
  | S754_finite s m e =>
      match e with
      | Zneg k =>
          if (Zpos m mod 2 ^ Zpos k =? 0)%Z
          then Some (cond_Zopp s (Zpos m / 2 ^ Zpos k))
          else None
      | _ => Some (cond_Zopp s (Zpos m * 2 ^ e))
      end
  | _ => None
  end.

(** Two characters are the same up to case. *)
Definition same_letter (a b : ascii) : Prop :=
  a = b \/ b = lower_char a \/ a = lower_char b.

(** [kw] occurs in [s] as a substring, up to case. *)
Definition occurs_ignoring_case (kw s : str) : Prop :=
  exists pre mid post, s = pre ++ mid ++ post /\ Forall2 same_letter kw mid.

(** Every character, and the check that [same_letter] is [lower_char]
    giving the same result, done on all pairs. *)
Definition all_chars : list ascii := map ascii_of_nat (seq 0 256).

Definition same_letter_check (a b : ascii) : bool :=
  Bool.eqb (Ascii.eqb (lower_char a) (lower_char b))
           (Ascii.eqb a b || Ascii.eqb b (lower_char a)
            || Ascii.eqb a (lower_char b)).

(** The two sources, and the scraper, cache entry and URL of each. *)
Inductive Source : Type := SecretFlying | TheFlightDeal.

Definition source_entry (src : Source) (c : Cache) : CacheEntry :=
  match src with
  | SecretFlying => secret_flying c
  | TheFlightDeal => the_flight_deal c
  end.

Definition source_url (src : Source) : str :=
  match src with
  | SecretFlying => secret_flying_url
  | TheFlightDeal => the_flight_deal_url
  end.

Definition scrape (float_other : str -> result float)
  (feedparser_parse : list str -> str -> result (list Entry))
  (src : Source) : float -> World -> list TravelDeal * World :=
  match src with
  | SecretFlying => scrape_secret_flying float_other feedparser_parse
  | TheFlightDeal => scrape_the_flight_deal float_other feedparser_parse
  end.

(** The world after a refresh of [src] at [now] that produced [deals]. *)
Definition refreshed (src : Source) (now : float) (deals : list TravelDeal)
  (w : World) : World :=
  {| cache :=
       match src with
       | SecretFlying =>
           {| secret_flying := {| timestamp := now; data := deals |};
              the_flight_deal := the_flight_deal (cache w) |}
       | TheFlightDeal =>
           {| secret_flying := secret_flying (cache w);
              the_flight_deal := {| timestamp := now; data := deals |} |}
       end;
     fetched := fetched w ++ [source_url src] |}.

(** The conjunction of the three predicates. *)
Definition passes (prefs : UserPreferences) (deal : TravelDeal) : bool :=
  departure_passes deal prefs && destination_passes deal prefs &&
  price_passes deal prefs.

(** What one entry contributes to the list a scraper builds. *)
Definition entry_deals (float_other : str -> result float) (t l : str)
  : list TravelDeal :=
  match parse_deal float_other t l with
  | inr (Some d) => [d]
  | _ => []
  end.

(** A feed entry that has both attributes. *)
Definition entry_of (tl : str * str) : Entry :=
  {| entry_title := Some (fst tl); entry_link := Some (snd tl) |}.

(** ** Concrete inputs of the examples *)

Definition float_other_rejects : str -> result float :=
  fun _ => raise ValueError.

Definition feed_down : list str -> str -> result (list Entry) :=
  fun _ _ => raise FeedError.

Definition feed_gives (entries : list Entry)
  : list str -> str -> result (list Entry) :=
  fun _ _ => ret entries.

Definition line_feed : str := ["010"%char].

Definition nyc_paris : TravelDeal :=
  deal_of (py "NYC to Paris $200") (py "https://example.org/1")
          (py "NYC") (py "Paris ") (py "200").

Definition with_departure (d : option str) (deal : TravelDeal) : TravelDeal :=
  {| title := title deal; link := link deal; price := price deal;
     currency := currency deal; departure := d;
     destination := destination deal |}.

Definition with_destination (d : option str) (deal : TravelDeal) : TravelDeal :=
  {| title := title deal; link := link deal; price := price deal;
     currency := currency deal; departure := departure deal;
     destination := d |}.

Definition with_price (p : option float) (deal : TravelDeal) : TravelDeal :=
  {| title := title deal; link := link deal; price := p;
     currency := currency deal; departure := departure deal;
     destination := destination deal |}.

Definition prefs_of (airports keywords : list str) (m : option float)
  : UserPreferences :=
  {| departure_airports := airports; destination_keywords := keywords;
     max_price := m; prefs_currency := Some (py "USD") |}.

Definition world_of (c : Cache) : World := {| cache := c; fetched := [] |}.

(** A cache whose entries were both filled at time 1000. *)
Definition cache_at_1000 : Cache :=
  {| secret_flying := {| timestamp := float_of_Z 1000; data := [nyc_paris] |};
     the_flight_deal :=
       {| timestamp := float_of_Z 1000; data := [nyc_paris] |} |}.

(** A feed with one entry. *)
Definition paris_feed : list str -> str -> result (list Entry) :=
  feed_gives [entry_of (py "NYC to Paris $200", py "https://example.org/1")].

(** ** Notions used by the further properties *)

(** A title in which the pattern occurs. *)
Definition title_matches (t : str) : Prop :=
  exists pre g1 g2 mid g3 tail,
    t = pre ++ shaped g1 g2 mid g3 tail /\ groups_ok g1 g2 mid g3.

(** The string starts with a dollar sign and a digit. *)
Definition dollar_price (s : str) : bool :=
  match s with
  | c :: d :: _ => Ascii.eqb c "$"%char && is_digit d
  | _ => false
  end.

(** No white space at either end. *)
Definition stripped (s : str) : bool :=
  head_fails is_space s && head_fails is_space (rev s).

(** An entry with both attributes. *)
Definition has_attrs (e : Entry) : bool :=
  match entry_title e, entry_link e with
  | Some _, Some _ => true
  | _, _ => false
  end.

(** What an entry contributes when it has both attributes. *)
Definition entry_contribution (float_other : str -> result float) (e : Entry)
  : list TravelDeal :=
  match entry_title e, entry_link e with
  | Some t, Some l => entry_deals float_other t l
  | _, _ => []
  end.

(** A deal [parse_deal] can return. *)
Definition is_parsed (float_other : str -> result float) (d : TravelDeal)
  : Prop :=
  exists t l, parse_deal float_other t l = ret (Some d).

(** Every cached deal came out of [parse_deal]. *)
Definition cache_parsed (float_other : str -> result float) (c : Cache)
  : Prop :=
  Forall (is_parsed float_other) (data (secret_flying c)) /\
  Forall (is_parsed float_other) (data (the_flight_deal c)).

Definition other_source (src : Source) : Source :=
  match src with
  | SecretFlying => TheFlightDeal
  | TheFlightDeal => SecretFlying
  end.

(** The entry of a source is within its TTL at [now]. *)
Definition fresh (src : Source) (now : float) (w : World) : bool :=
  float_lt (float_sub now (timestamp (source_entry src (cache w)))) CACHE_TTL.

Definition with_currency (c : option str) (prefs : UserPreferences)
  : UserPreferences :=
  {| departure_airports := departure_airports prefs;
     destination_keywords := destination_keywords prefs;
     max_price := max_price prefs;
     prefs_currency := c |}.

(** The stages of [re_match] after the first group, after the second
    group, and after the lazy run. *)
Definition match_price (g1 g2 s4 : str) : option (str * str * str) :=
  re_lit (py "$") s4 (fun s5 =>
  re_plus is_digit s5 (fun g3 _ => Some (g1, g2, g3))).

Definition match_rest (g1 g2 s3 : str) : option (str * str * str) :=
  re_star_lazy is_dot s3 (match_price g1 g2).

Definition match_destination (g1 s1 : str) : option (str * str * str) :=
  re_lit (py " to ") s1 (fun s2 =>
  re_plus destination_char s2 (fun g2 s3 => match_rest g1 g2 s3)).

(** The match [pre ++ shaped g1 g2 mid g3 tail] takes the whole run of
    destination characters, stops at the first dollar sign that a digit
    follows, and takes the whole run of digits. *)
Definition whole_groups (mid g3 tail : str) : Prop :=
  head_fails destination_char mid = true /\
  head_fails is_digit tail = true /\
  forall m1 m2, mid = m1 ++ m2 -> m2 <> [] ->
    dollar_price (m2 ++ py "$" ++ g3 ++ tail) = false.

(** No match of the pattern starts inside [pre], and none that starts where
    [g1] does has a longer first group. *)
Definition leftmost_longest (pre g1 rest : str) : Prop :=
  (forall p1 p2 g1' g2' mid' g3' tail',
     pre = p1 ++ p2 -> p2 <> [] -> groups_ok g1' g2' mid' g3' ->
     p2 ++ g1 ++ rest <> shaped g1' g2' mid' g3' tail') /\
  (forall g1' g2' mid' g3' tail',
     g1 ++ rest = shaped g1' g2' mid' g3' tail' ->
     groups_ok g1' g2' mid' g3' ->
     List.length g1' <= List.length g1).

(** A float that is a number and is not below zero. *)
Definition nonneg_float (x : float) : bool :=
  match x with
  | S754_zero _ | S754_infinity false | S754_finite false _ _ => true
  | _ => false
  end.

(** ** Further concrete inputs *)

Definition sample_title : str :=
  py "Deal: NYC to Paris (CDG) from $450 or $99".

Definition sample_link : str := py "https://example.org/2".

Definition sample_deal : TravelDeal :=
  deal_of sample_title sample_link (py " NYC") (py "Paris ") (py "450").

Definition with_title_link (t l : str) (deal : TravelDeal) : TravelDeal :=
  {| title := t; link := l; price := price deal;
     currency := currency deal; departure := departure deal;
     destination := destination deal |}.

(** A feed whose second entry has no link. *)
Definition broken_feed : list str -> str -> result (list Entry) :=
  feed_gives [entry_of (py "NYC to Paris $200", py "https://example.org/1");
              {| entry_title := Some (py "LAX to Rome $300");
                 entry_link := None |}].

Definition paris_prefs : UserPreferences :=
  prefs_of [py "NYC"] [py "paris"] (Some (float_of_Z 300)).

(** * Lemmas *)

(** ** Facts about the backtracking combinators *)

Section BacktrackingFacts.
Variable R : Type.

Lemma re_lit_app (l s : str) (k : str -> option R) :
  re_lit l (l ++ s) k = k s.
Proof.
  induction l as [|a l IH]; simpl; [reflexivity|].
  now rewrite Ascii.eqb_refl.
Qed.

Lemma re_lit_startswith (l s : str) (k : str -> option R) :
  startswith s l = false -> re_lit l s k = None.
Proof.
  revert s; induction l as [|a l IH]; intros [|c s]; simpl;
    try discriminate; auto.
  destruct (Ascii.eqb a c); simpl; auto.
Qed.

Lemma re_star_none (p : ascii -> bool) (s : str) (k : str -> str -> option R) :
  (forall x r, x <> [] -> s = x ++ r -> forallb p x = true -> k x r = None) ->
  re_star p s k = k [] s.
Proof.
  revert k; induction s as [|c s IH]; intros k H; simpl; [reflexivity|].
  destruct (p c) eqn:Hc; [|reflexivity].
  rewrite IH.
  - rewrite (H [c] s);
      [reflexivity|discriminate|reflexivity|simpl; now rewrite Hc].
  - intros x r Hx -> Hp.
    apply H; [discriminate|reflexivity|simpl; now rewrite Hc].
Qed.

Lemma re_star_exact (p : ascii -> bool) (g s : str)
  (k : str -> str -> option R) (v : R) :
  forallb p g = true ->
  (forall x r, x <> [] -> s = x ++ r -> forallb p x = true ->
               k (g ++ x) r = None) ->
  k g s = Some v ->
  re_star p (g ++ s) k = Some v.
Proof.
  revert k; induction g as [|c g IH]; intros k Hg H Hk; simpl in *.
  - rewrite re_star_none; auto.
  - apply andb_prop in Hg as [Hc Hg]. rewrite Hc.
    rewrite (IH (fun g' rest => k (c :: g') rest)); auto.
Qed.

Lemma re_plus_exact (p : ascii -> bool) (g s : str)
  (k : str -> str -> option R) (v : R) :
  g <> [] -> forallb p g = true ->
  (forall x r, x <> [] -> s = x ++ r -> forallb p x = true ->
               k (g ++ x) r = None) ->
  k g s = Some v ->
  re_plus p (g ++ s) k = Some v.
Proof.
  destruct g as [|c g]; [congruence|]. intros _ Hg H Hk. simpl in *.
  apply andb_prop in Hg as [Hc Hg]. rewrite Hc.
  apply (re_star_exact p g s (fun g' rest => k (c :: g') rest)); auto.
Qed.

Lemma re_plus_maximal (p : ascii -> bool) (g s : str)
  (k : str -> str -> option R) (v : R) :
  g <> [] -> forallb p g = true -> head_fails p s = true ->
  k g s = Some v ->
  re_plus p (g ++ s) k = Some v.
Proof.
  intros Hg Hp Hs Hk. apply re_plus_exact; auto.
  intros [|c x] r Hx -> Hpx; [congruence|]. simpl in *.
  apply andb_prop in Hpx as [Hc _]. rewrite Hc in Hs. discriminate.
Qed.

Lemma re_star_lazy_skip (p : ascii -> bool) (skipped s : str)
  (k : str -> option R) :
  forallb p skipped = true ->
  (forall x, x <> [] -> (exists y, skipped = y ++ x) -> k (x ++ s) = None) ->
  re_star_lazy p (skipped ++ s) k = re_star_lazy p s k.
Proof.
  induction skipped as [|c m IH]; intros Hp H; simpl; [reflexivity|].
  simpl in Hp. apply andb_prop in Hp as [Hc Hp].
  assert (H0 : k ((c :: m) ++ s) = None)
    by (apply H; [discriminate|now exists []]).
  simpl in H0. rewrite H0, Hc. apply IH; auto.
  intros x Hx [y ->]. apply H; auto. now exists (c :: y).
Qed.

Lemma re_star_lazy_here (p : ascii -> bool) (s : str) (k : str -> option R)
  (v : R) : k s = Some v -> re_star_lazy p s k = Some v.
Proof. destruct s; simpl; intros ->; reflexivity. Qed.

End BacktrackingFacts.

Lemma nonempty_neq (s : str) : nonempty s = true -> s <> [].
Proof. destruct s; simpl; congruence. Qed.

Lemma startswith_app (pre s : str) : startswith (pre ++ s) pre = true.
Proof.
  induction pre as [|a pre IH]; simpl; [reflexivity|].
  now rewrite Ascii.eqb_refl.
Qed.

Lemma startswith_single (a c : ascii) (s : str) :
  startswith (c :: s) [a] = Ascii.eqb a c.
Proof. cbn [startswith]. apply andb_true_r. Qed.

Lemma startswith_inv (s pre : str) :
  startswith s pre = true -> exists r, s = pre ++ r.
Proof.
  revert s; induction pre as [|a pre IH]; intros s H.
  - now exists s.
  - destruct s as [|c s]; simpl in H; [discriminate|].
    apply andb_prop in H as [Hc H]. apply Ascii.eqb_eq in Hc as ->.
    destruct (IH _ H) as [r ->]. now exists r.
Qed.

Lemma contains_app (pre sub post : str) :
  contains (pre ++ sub ++ post) sub = true.
Proof.
  induction pre as [|a pre IH]; simpl.
  - pose proof (startswith_app sub post) as E.
    destruct (sub ++ post); simpl; now rewrite E.
  - rewrite IH. apply orb_true_r.
Qed.

Lemma contains_inv (s sub : str) :
  contains s sub = true -> exists pre post, s = pre ++ sub ++ post.
Proof.
  induction s as [|c s IH]; simpl; intros H.
  - rewrite orb_false_r in H. apply startswith_inv in H as [r ->].
    now exists [], r.
  - apply orb_prop in H as [H|H].
    + apply startswith_inv in H as [r ->]. now exists [], r.
    + destruct (IH H) as (pre & post & ->). now exists (c :: pre), post.
Qed.

Lemma class_prefix (p : ascii -> bool) (u' u rest r : str) :
  forallb p u = true -> head_fails p rest = true ->
  u ++ rest = u' ++ r -> forallb p u' = true ->
  exists y, u = u' ++ y.
Proof.
  revert u; induction u' as [|c u' IH]; intros u Hu Hrest E Hu'.
  - now exists u.
  - simpl in Hu'. apply andb_prop in Hu' as [Hc Hu'].
    destruct u as [|d u]; simpl in *.
    + subst rest. simpl in Hrest. rewrite Hc in Hrest. discriminate.
    + injection E as -> E. apply andb_prop in Hu as [_ Hu].
      destruct (IH u Hu Hrest E Hu') as [y ->]. now exists y.
Qed.

Lemma origin_destination_char (c : ascii) :
  origin_char c = true -> destination_char c = true.
Proof.
  unfold origin_char, destination_char.
  destruct (is_letter c), (is_space c), (Ascii.eqb c ","%char); simpl; auto.
Qed.

Lemma no_later_to (B rest x r : str) :
  forallb destination_char B = true ->
  head_fails destination_char rest = true ->
  contains (py "to " ++ B) (py " to ") = false ->
  x <> [] -> py " to " ++ B ++ rest = x ++ r ->
  forallb origin_char x = true ->
  startswith r (py " to ") = false.
Proof.
  intros HB Hrest Hto Hx E Hox.
  destruct (startswith r (py " to ")) eqn:Hs; [exfalso|reflexivity].
  apply startswith_inv in Hs as [r' ->].
  assert (Hu : forallb destination_char (py " to " ++ B) = true)
    by (rewrite forallb_app, HB; reflexivity).
  assert (Hu' : forallb destination_char (x ++ py " to ") = true).
  { rewrite forallb_app. apply andb_true_intro; split; [|reflexivity].
    apply forallb_forall. intros c Hc. apply origin_destination_char.
    now apply (proj1 (forallb_forall _ _) Hox). }
  destruct (class_prefix destination_char (x ++ py " to ") (py " to " ++ B)
              rest r') as [y Hy]; auto.
  { rewrite <- !app_assoc. exact E. }
  destruct x as [|c x]; [congruence|].
  change (py " to " ++ B) with (" "%char :: py "to " ++ B) in Hy.
  simpl in Hy. injection Hy as _ Hy.
  change ("t"%char :: "o"%char :: " "%char :: B) with (py "to " ++ B) in Hy.
  rewrite Hy, <- app_assoc, contains_app in Hto. discriminate.
Qed.

Lemma title_shape_inv (A B mid N tail : str) :
  title_shape A B mid N tail = true ->
  (A <> [] /\ forallb origin_char A = true) /\
  (B <> [] /\ forallb destination_char B = true) /\
  (head_fails destination_char mid = true /\ forallb not_dollar mid = true) /\
  (N <> [] /\ forallb is_digit N = true) /\
  head_fails is_digit tail = true.
Proof.
  unfold title_shape. intros H.
  repeat match type of H with
         | (_ && _)%bool = true => apply andb_prop in H as [H ?]
         end.
  auto 10 using nonempty_neq.
Qed.

Lemma re_match_shaped (A B mid N tail : str) :
  title_shape A B mid N tail = true ->
  contains (py "to " ++ B) (py " to ") = false ->
  forallb is_dot mid = true ->
  re_match (shaped A B mid N tail) = Some (A, B, N).
Proof.
  intros H Hto Hdot.
  apply title_shape_inv in H
    as ((HA & HoA) & (HB & HdB) & (Hmax & Hdollar) & (HN & HdN) & Htail).
  assert (Hrest : head_fails destination_char (mid ++ py "$" ++ N ++ tail)
                  = true)
    by (destruct mid; [reflexivity|assumption]).
  unfold re_match, shaped.
  apply re_plus_exact; auto.
  - intros x r Hx E Hox. apply re_lit_startswith.
    now apply (no_later_to B (mid ++ py "$" ++ N ++ tail) x r).
  - rewrite re_lit_app.
    apply re_plus_maximal; auto.
    rewrite re_star_lazy_skip; auto.
    + apply re_star_lazy_here. rewrite re_lit_app.
      apply re_plus_maximal; auto.
    + intros [|c x] Hx [y ->]; [congruence|].
      rewrite forallb_app in Hdollar. apply andb_prop in Hdollar as [_ Hc].
      simpl in Hc. apply andb_prop in Hc as [Hc _].
      apply re_lit_startswith. unfold not_dollar in Hc.
      change (startswith (c :: x ++ py "$" ++ N ++ tail) ["$"%char] = false).
      rewrite startswith_single, Ascii.eqb_sym.
      now destruct (Ascii.eqb c "$"%char).
Qed.

Lemma re_search_here (s : str) (m : str * str * str) :
  re_match s = Some m -> re_search s = Some m.
Proof. destruct s; cbn [re_search]; intros ->; reflexivity. Qed.

Lemma re_search_shaped (A B mid N tail : str) :
  title_shape A B mid N tail = true ->
  contains (py "to " ++ B) (py " to ") = false ->
  forallb is_dot mid = true ->
  re_search (shaped A B mid N tail) = Some (A, B, N).
Proof.
  intros H Hto Hdot. now apply re_search_here, re_match_shaped.
Qed.

(** ** Facts about floats *)

Lemma SFcompare_antisym (x y : float) :
  SFcompare y x = option_map CompOpp (SFcompare x y).
Proof.
  destruct x as [sx|sx| |sx mx ex], y as [sy|sy| |sy my ey]; simpl;
    try reflexivity;
    try (destruct sx; reflexivity); try (destruct sy; reflexivity);
    try (destruct sx, sy; reflexivity).
  destruct sx, sy; simpl; try reflexivity; f_equal;
    rewrite (Z.compare_antisym ex ey); destruct (ex ?= ey)%Z; simpl;
    try reflexivity;
    rewrite (Pos.compare_cont_antisym mx my Eq); simpl;
    try rewrite CompOpp_involutive; reflexivity.
Qed.

Lemma float_le_not_lt (x y : float) :
  float_le x y = true -> float_lt y x = false.
Proof.
  unfold float_le, float_lt, SFleb, SFltb. rewrite (SFcompare_antisym x y).
  destruct (SFcompare x y) as [[]|]; simpl; congruence.
Qed.

(** Off the NaNs, [x > y] fails exactly when [x <= y]. *)
Lemma float_gt_le (x y : float) :
  is_nan x = false -> is_nan y = false ->
  float_gt x y = negb (float_le x y).
Proof.
  unfold float_gt, float_le, SFleb, SFltb. rewrite (SFcompare_antisym x y).
  intros Hx Hy. destruct (SFcompare x y) as [[]|] eqn:E; try reflexivity.
  destruct x, y; simpl in *; discriminate.
Qed.

Lemma float_gt_nan (x y : float) : is_nan x = true -> float_gt x y = false.
Proof. destruct x; try discriminate. intros _. now destruct y. Qed.

Lemma float_sub_diag (x : float) :
  is_finite x = true -> float_sub x x = S754_zero false.
Proof.
  destruct x as [s|s| |s m e]; try discriminate; intros _.
  - now destruct s.
  - unfold float_sub, SFsub. rewrite Z.sub_diag. reflexivity.
Qed.

Lemma digits2_pos_lower (p : positive) :
  (2 ^ (Zpos (digits2_pos p) - 1) <= Zpos p)%Z.
Proof.
  induction p as [p IH|p IH|]; cbn [digits2_pos]; [| |simpl; lia].
  - rewrite Pos2Z.inj_succ. replace (Z.succ (Zpos (digits2_pos p)) - 1)%Z
      with (Z.succ (Zpos (digits2_pos p) - 1))%Z by lia.
    rewrite Z.pow_succ_r by lia. lia.
  - rewrite Pos2Z.inj_succ. replace (Z.succ (Zpos (digits2_pos p)) - 1)%Z
      with (Z.succ (Zpos (digits2_pos p) - 1))%Z by lia.
    rewrite Z.pow_succ_r by lia. lia.
Qed.

Lemma digits2_pos_le_53 (p : positive) :
  (Zpos p < 2 ^ 53)%Z -> (Zpos (digits2_pos p) <= 53)%Z.
Proof.
  intros H. pose proof (digits2_pos_lower p) as L.
  destruct (Z_le_gt_dec (Zpos (digits2_pos p)) 53) as [|G]; [assumption|].
  exfalso. assert (2 ^ 53 <= 2 ^ (Zpos (digits2_pos p) - 1))%Z
    by (apply Z.pow_le_mono_r; lia). lia.
Qed.

Lemma iter_xO_digits (p k : positive) :
  digits2_pos (Pos.iter xO p k) = (digits2_pos p + k)%positive.
Proof.
  induction k as [|k IH] using Pos.peano_ind.
  - cbn. lia.
  - rewrite Pos.iter_succ. cbn [digits2_pos]. rewrite IH. lia.
Qed.

Lemma iter_xO_value (p k : positive) :
  Zpos (Pos.iter xO p k) = (Zpos p * 2 ^ Zpos k)%Z.
Proof.
  induction k as [|k IH] using Pos.peano_ind.
  - cbn. lia.
  - rewrite Pos.iter_succ, Pos2Z.inj_succ, Z.pow_succ_r by lia.
    rewrite Pos2Z.inj_xO, IH. lia.
Qed.

Lemma binary_round_aux_canonical (m : positive) (e : Z) :
  Zpos (digits2_pos m) = 53%Z -> (-1074 <= e <= 971)%Z ->
  binary_round_aux 53 1024 false (Zpos m) e loc_Exact = S754_finite false m e.
Proof.
  intros Hd He.
  assert (F : (fexp 53 1024 (Zdigits2 (Zpos m) + e) - e = 0)%Z).
  { unfold fexp, emin. cbn [Zdigits2]. rewrite Hd. lia. }
  unfold binary_round_aux, shr_fexp. rewrite F.
  cbn [shr_record_of_loc shr shr_m loc_of_shr_record round_nearest_even].
  rewrite F. cbn [shr_record_of_loc shr shr_m].
  destruct (Z.leb_spec e (1024 - 53)); [reflexivity|lia].
Qed.

Lemma float_of_Z_pos (p : positive) :
  (Zpos p < 2 ^ 53)%Z ->
  float_of_Z (Zpos p)
  = match (Zpos (digits2_pos p) - 53)%Z with
    | Zneg k => S754_finite false (Pos.iter xO p k) (Zneg k)
    | _ => S754_finite false p 0
    end.
Proof.
  intros H. pose proof (digits2_pos_le_53 p H) as Hd.
  unfold float_of_Z, binary_normalize, binary_round.
  assert (F : fexp 53 1024 (Zpos (digits2_pos p) + 0)
              = (Zpos (digits2_pos p) - 53)%Z)
    by (unfold fexp, emin; lia).
  rewrite F. unfold shl_align. rewrite Z.sub_0_r.
  destruct (Zpos (digits2_pos p) - 53)%Z as [|k|k] eqn:E; try lia.
  - apply binary_round_aux_canonical; lia.
  - apply binary_round_aux_canonical; [|lia].
    rewrite iter_xO_digits. lia.
Qed.

(** An integer below [2^53] is a float. *)
Lemma float_of_Z_exact (n : Z) :
  (0 <= n < 2 ^ 53)%Z -> float_to_Z (float_of_Z n) = Some n.
Proof.
  intros [H0 H]. destruct n as [|p|p]; [reflexivity| |lia].
  rewrite (float_of_Z_pos p H).
  destruct (Zpos (digits2_pos p) - 53)%Z as [|k|k] eqn:E.
  - cbn [float_to_Z cond_Zopp]. f_equal. lia.
  - cbn [float_to_Z cond_Zopp]. f_equal. lia.
  - cbn [float_to_Z cond_Zopp]. rewrite iter_xO_value.
    rewrite Z.mod_mul by lia. rewrite Z.eqb_refl.
    rewrite Z.div_mul by lia. reflexivity.
Qed.

Lemma decimal_acc_nonneg (ds : str) (acc : Z) :
  forallb is_digit ds = true -> (0 <= acc)%Z ->
  (0 <= fold_left (fun a c => 10 * a + digit_value c) ds acc)%Z.
Proof.
  revert acc; induction ds as [|c ds IH]; intros acc H Hacc;
    cbn [fold_left]; [lia|].
  cbn [forallb] in H. apply andb_prop in H as [Hc H]. apply IH; [assumption|].
  unfold is_digit, in_range in Hc. apply andb_prop in Hc as [Hc _].
  apply N.leb_le in Hc. unfold digit_value. lia.
Qed.

Lemma decimal_nonneg (ds : str) :
  forallb is_digit ds = true -> (0 <= decimal ds)%Z.
Proof. intros H. apply decimal_acc_nonneg; [assumption|lia]. Qed.

(** ** What the matcher accepts *)

Section BacktrackingInversion.
Variable R : Type.

Lemma re_lit_inv (l s : str) (k : str -> option R) (v : R) :
  re_lit l s k = Some v -> exists r, s = l ++ r /\ k r = Some v.
Proof.
  revert s; induction l as [|a l IH]; intros s H; simpl in H.
  - now exists s.
  - destruct s as [|c s]; [discriminate|].
    destruct (Ascii.eqb a c) eqn:E; [|discriminate].
    apply Ascii.eqb_eq in E as ->.
    destruct (IH _ H) as (r & -> & Hk). now exists r.
Qed.

Lemma re_star_inv (p : ascii -> bool) (s : str) (k : str -> str -> option R)
  (v : R) :
  re_star p s k = Some v ->
  exists g r, s = g ++ r /\ forallb p g = true /\ k g r = Some v.
Proof.
  revert k; induction s as [|c s IH]; intros k H; simpl in H.
  - now exists [], [].
  - destruct (p c) eqn:Hc; [|now exists [], (c :: s)].
    destruct (re_star p s (fun g rest => k (c :: g) rest)) as [v'|] eqn:E.
    + injection H as ->. destruct (IH _ E) as (g & r & -> & Hg & Hk).
      exists (c :: g), r. simpl. now rewrite Hc.
    + now exists [], (c :: s).
Qed.

Lemma re_plus_inv (p : ascii -> bool) (s : str) (k : str -> str -> option R)
  (v : R) :
  re_plus p s k = Some v ->
  exists g r, s = g ++ r /\ g <> [] /\ forallb p g = true /\ k g r = Some v.
Proof.
  destruct s as [|c s]; simpl; [discriminate|].
  destruct (p c) eqn:Hc; [|discriminate]. intros H.
  apply re_star_inv in H as (g & r & -> & Hg & Hk).
  exists (c :: g), r. simpl. rewrite Hc. repeat split; auto. discriminate.
Qed.

Lemma re_star_lazy_inv (p : ascii -> bool) (s : str) (k : str -> option R)
  (v : R) :
  re_star_lazy p s k = Some v ->
  exists g r, s = g ++ r /\ forallb p g = true /\ k r = Some v.
Proof.
  induction s as [|c s IH]; simpl; intros H.
  - destruct (k []) eqn:E; [|discriminate]. injection H as ->.
    now exists [], [].
  - destruct (k (c :: s)) eqn:E.
    + injection H as ->. now exists [], (c :: s).
    + destruct (p c) eqn:Hc; [|discriminate].
      destruct (IH H) as (g & r & -> & Hg & Hk).
      exists (c :: g), r. simpl. now rewrite Hc.
Qed.

End BacktrackingInversion.

Lemma re_match_inv (s g1 g2 g3 : str) :
  re_match s = Some (g1, g2, g3) ->
  exists mid tail, s = shaped g1 g2 mid g3 tail /\ groups_ok g1 g2 mid g3.
Proof.
  unfold re_match. intros H.
  apply re_plus_inv in H as (a & s1 & -> & Ha & Hpa & H).
  apply re_lit_inv in H as (s2 & -> & H).
  apply re_plus_inv in H as (b & s3 & -> & Hb & Hpb & H).
  apply re_star_lazy_inv in H as (mid & s4 & -> & Hmid & H).
  apply re_lit_inv in H as (s5 & -> & H).
  apply re_plus_inv in H as (n & tail & -> & Hn & Hpn & H).
  injection H as -> -> ->.
  exists mid, tail. unfold groups_ok. auto 10.
Qed.

Lemma re_search_inv (s g1 g2 g3 : str) :
  re_search s = Some (g1, g2, g3) ->
  exists pre mid tail,
    s = pre ++ shaped g1 g2 mid g3 tail /\ groups_ok g1 g2 mid g3.
Proof.
  induction s as [|c s IH]; cbn [re_search]; intros H.
  - destruct (re_match []) eqn:E; [|discriminate]. injection H as ->.
    apply re_match_inv in E as (mid & tail & E & Hg). now exists [], mid, tail.
  - destruct (re_match (c :: s)) eqn:E.
    + injection H as ->.
      apply re_match_inv in E as (mid & tail & E & Hg).
      now exists [], mid, tail.
    + destruct (IH H) as (pre & mid & tail & -> & Hg).
      now exists (c :: pre), mid, tail.
Qed.

(** ** Facts about [strip] *)

Lemma lstrip_all_space (s : str) : forallb is_space s = true -> lstrip s = [].
Proof.
  induction s as [|c s IH]; simpl; [reflexivity|].
  intros H. apply andb_prop in H as [-> H]. auto.
Qed.

Lemma strip_all_space (s : str) : forallb is_space s = true -> strip s = [].
Proof. intros H. unfold strip. now rewrite lstrip_all_space. Qed.

Lemma lstrip_spec (s : str) :
  exists l, s = l ++ lstrip s /\ forallb is_space l = true /\
            head_fails is_space (lstrip s) = true.
Proof.
  induction s as [|c s (l & E & Hl & Hh)]; simpl.
  - now exists [].
  - destruct (is_space c) eqn:Hc.
    + exists (c :: l). simpl. rewrite Hc. now rewrite <- E.
    + exists []. simpl. now rewrite Hc.
Qed.

Lemma forallb_rev (p : ascii -> bool) (s : str) :
  forallb p (rev s) = forallb p s.
Proof.
  induction s as [|c s IH]; simpl; [reflexivity|].
  rewrite forallb_app, IH. simpl. rewrite andb_true_r. apply andb_comm.
Qed.

(** [strip] removes a run of white space at each end and leaves a string
    that neither starts nor ends with white space. *)
Lemma strip_spec (s : str) :
  exists l r, s = l ++ strip s ++ r /\
              forallb is_space l = true /\ forallb is_space r = true /\
              head_fails is_space (strip s) = true /\
              head_fails is_space (rev (strip s)) = true.
Proof.
  destruct (lstrip_spec s) as (l & E & Hl & Hh).
  destruct (lstrip_spec (rev (lstrip s))) as (r & Er & Hr & Hhr).
  unfold strip, rstrip. exists l, (rev r).
  assert (Et : lstrip s = rev (lstrip (rev (lstrip s))) ++ rev r).
  { rewrite <- rev_app_distr, <- Er. now rewrite rev_involutive. }
  repeat split; auto.
  - now rewrite <- Et.
  - now rewrite forallb_rev.
  - rewrite Et in Hh. destruct (rev (lstrip (rev (lstrip s)))); auto.
  - now rewrite rev_involutive.
Qed.

(** ** [parse_deal] *)

Section ParseDeal.

Variable float_other : str -> result float.

Lemma py_float_digits (ds : str) :
  ds <> [] -> forallb is_digit ds = true ->
  py_float float_other ds = ret (float_of_Z (decimal ds)).
Proof.
  destruct ds as [|c ds]; [congruence|]. intros _ H.
  unfold py_float. now rewrite H.
Qed.

Lemma parse_deal_try_match (title link g1 g2 g3 : str) :
  re_search title = Some (g1, g2, g3) ->
  parse_deal_try float_other title link
  = ret (Some (deal_of title link g1 g2 g3)).
Proof.
  intros H. unfold parse_deal_try. rewrite H.
  apply re_search_inv in H as (pre & mid & tail & _ & _ & _ & _ & Hn & Hd).
  now rewrite py_float_digits.
Qed.

Lemma parse_deal_try_no_match (title link : str) :
  re_search title = None -> parse_deal_try float_other title link = ret None.
Proof. intros H. unfold parse_deal_try. now rewrite H. Qed.

(** The conversion of the third group never fails, so the [try] block never
    raises. *)
Lemma parse_deal_try_returns (title link : str) :
  exists r, parse_deal_try float_other title link = ret r.
Proof.
  destruct (re_search title) as [[[g1 g2] g3]|] eqn:E.
  - eexists. exact (parse_deal_try_match _ link _ _ _ E).
  - eexists. exact (parse_deal_try_no_match _ link E).
Qed.

Lemma parse_deal_match (title link g1 g2 g3 : str) :
  re_search title = Some (g1, g2, g3) ->
  parse_deal float_other title link = ret (Some (deal_of title link g1 g2 g3)).
Proof.
  intros H. unfold parse_deal.
  now rewrite (parse_deal_try_match _ link _ _ _ H).
Qed.

Lemma parse_deal_no_match (title link : str) :
  re_search title = None -> parse_deal float_other title link = ret None.
Proof.
  intros H. unfold parse_deal. now rewrite (parse_deal_try_no_match _ link H).
Qed.

Lemma parse_deal_shaped (A B mid N tail link : str) :
  title_shape A B mid N tail = true ->
  contains (py "to " ++ B) (py " to ") = false ->
  forallb is_dot mid = true ->
  parse_deal float_other (shaped A B mid N tail) link
  = ret (Some (deal_of (shaped A B mid N tail) link A B N)).
Proof.
  intros H Hto Hdot. now apply parse_deal_match, re_search_shaped.
Qed.

(** A deal comes only from a title that has [" to "] and, later, a dollar
    sign. *)
Lemma parse_deal_some_inv (title link : str) (deal : TravelDeal) :
  parse_deal float_other title link = ret (Some deal) ->
  exists pre g1 g2 mid g3 tail,
    title = pre ++ shaped g1 g2 mid g3 tail /\ groups_ok g1 g2 mid g3 /\
    deal = deal_of title link g1 g2 g3.
Proof.
  destruct (re_search title) as [[[g1 g2] g3]|] eqn:E.
  - rewrite (parse_deal_match _ link _ _ _ E). intros H. injection H as <-.
    apply re_search_inv in E as (pre & mid & tail & E & Hg).
    now exists pre, g1, g2, mid, g3, tail.
  - rewrite (parse_deal_no_match _ link E). discriminate.
Qed.

(** The loop of a scraper, when every entry has a title and a link. *)
Lemma collect_deals_entry (t l : str) (entries : list Entry)
  (deals : list TravelDeal) :
  collect_deals float_other
    ({| entry_title := Some t; entry_link := Some l |} :: entries) deals
  = collect_deals float_other entries (deals ++ entry_deals float_other t l).
Proof.
  unfold entry_deals.
  cbn [collect_deals getattr entry_title entry_link bind ret].
  destruct (parse_deal_try_returns t l) as [r Hr].
  unfold parse_deal. rewrite Hr.
  destruct r; cbn [ret bind]; [reflexivity|now rewrite app_nil_r].
Qed.

End ParseDeal.

(** ** Facts about the filter *)

Lemma str_eqb_eq (a b : str) : str_eqb a b = true <-> a = b.
Proof.
  unfold str_eqb. destruct (list_eq_dec ascii_dec a b); split; congruence.
Qed.

Lemma existsb_str_eqb (d : str) (l : list str) :
  existsb (str_eqb d) l = true <-> In d l.
Proof.
  rewrite existsb_exists. split.
  - intros (x & Hx & E). apply str_eqb_eq in E. now subst.
  - intros H. exists d. split; [assumption|now apply str_eqb_eq].
Qed.

Lemma contains_iff (s sub : str) :
  contains s sub = true <-> exists pre post, s = pre ++ sub ++ post.
Proof.
  split; [apply contains_inv|]. intros (pre & post & ->). apply contains_app.
Qed.

Lemma all_chars_complete (c : ascii) : In c all_chars.
Proof.
  unfold all_chars. rewrite <- (ascii_nat_embedding c).
  apply in_map, in_seq. pose proof (nat_ascii_bounded c). lia.
Qed.

Lemma same_letter_check_all :
  forallb (fun a => forallb (same_letter_check a) all_chars) all_chars = true.
Proof. vm_compute. reflexivity. Qed.

Lemma same_letter_lower (a b : ascii) :
  same_letter a b <-> lower_char a = lower_char b.
Proof.
  pose proof same_letter_check_all as H.
  rewrite forallb_forall in H. specialize (H a (all_chars_complete a)).
  rewrite forallb_forall in H. specialize (H b (all_chars_complete b)).
  unfold same_letter_check in H. apply Bool.eqb_prop in H.
  unfold same_letter. rewrite <- !Ascii.eqb_eq, H, !orb_true_iff. tauto.
Qed.

Lemma Forall2_same_letter (kw s : str) :
  Forall2 same_letter kw s <-> lower kw = lower s.
Proof.
  split.
  - induction 1 as [|a b kw s Hab _ IH]; simpl; [reflexivity|].
    apply same_letter_lower in Hab. congruence.
  - revert s; induction kw as [|a kw IH]; intros [|b s] E; simpl in E;
      try discriminate; constructor.
    + apply same_letter_lower. congruence.
    + apply IH. congruence.
Qed.

Lemma contains_lower_iff (d kw : str) :
  contains (lower d) (lower kw) = true <-> occurs_ignoring_case kw d.
Proof.
  rewrite contains_iff. unfold occurs_ignoring_case, lower. split.
  - intros (pre & post & E).
    apply map_eq_app in E as (pre' & rest & -> & _ & E).
    apply map_eq_app in E as (mid & post' & -> & E & _).
    exists pre', mid, post'. split; [reflexivity|].
    now apply Forall2_same_letter.
  - intros (pre & mid & post & -> & H). apply Forall2_same_letter in H.
    exists (map lower_char pre), (map lower_char post).
    rewrite !map_app. unfold lower in H. now rewrite H.
Qed.

Lemma filter_loop_spec (prefs : UserPreferences)
  (deals filtered : list TravelDeal) :
  filter_loop deals prefs filtered = filtered ++ filter (passes prefs) deals.
Proof.
  revert filtered; induction deals as [|d deals IH]; intros filtered; simpl.
  - now rewrite app_nil_r.
  - unfold passes, departure_passes, destination_passes, price_passes.
    destruct (departure_rejected d prefs); simpl; [apply IH|].
    destruct (destination_rejected d prefs); simpl; [apply IH|].
    destruct (price_rejected d prefs); simpl; [apply IH|].
    rewrite IH, <- app_assoc. reflexivity.
Qed.

(** [filter_deals] keeps, in order, the deals that pass the three
    predicates. *)
Lemma filter_deals_spec (deals : list TravelDeal) (prefs : UserPreferences) :
  filter_deals deals prefs = filter (passes prefs) deals.
Proof. unfold filter_deals. now rewrite filter_loop_spec. Qed.

(** * The properties *)

(** ** Title parser *)

(** C1 (as amended).  For a title [A ++ " to " ++ B ++ mid ++ "$" ++ N ++
    tail] of the shape [title_shape], in which no further [" to "] occurs
    in ["to " ++ B] and [mid] has no line feed, [parse_deal] returns a deal
    whose departure is [A] stripped, whose destination is [B] stripped,
    whose price is [float(N)], which is [N] itself when [N] is below
    [2^53], whose currency is ["USD"], and whose title and link are the
    inputs. *)
Theorem parse_deal_shaped_title
  (float_other : str -> result float) (A B mid N tail url : str) :
  title_shape A B mid N tail = true ->
  contains (py "to " ++ B) (py " to ") = false ->
  forallb is_dot mid = true ->
  exists deal,
    parse_deal float_other (shaped A B mid N tail) url = ret (Some deal) /\
    departure deal = Some (strip A) /\
    destination deal = Some (strip B) /\
    price deal = Some (float_of_Z (decimal N)) /\
    ((decimal N < 2 ^ 53)%Z ->
     float_to_Z (float_of_Z (decimal N)) = Some (decimal N)) /\
    currency deal = Some (py "USD") /\
    title deal = shaped A B mid N tail /\
    link deal = url.
Proof.
  intros H Hto Hdot. eexists. split.
  - now apply parse_deal_shaped.
  - repeat split. intros Hn. apply float_of_Z_exact. split; [|assumption].
    apply decimal_nonneg.
    now apply title_shape_inv in H as (_ & _ & _ & (_ & HN) & _).
Qed.

Lemma parse_deal_shaped_title_witness :
  title_shape (py "NYC") (py "Paris, France ") (py "- nonstop for ")
              (py "450") (py " roundtrip") = true /\
  contains (py "to " ++ py "Paris, France ") (py " to ") = false /\
  forallb is_dot (py "- nonstop for ") = true /\
  exists deal,
    parse_deal float_other_rejects
      (shaped (py "NYC") (py "Paris, France ") (py "- nonstop for ")
              (py "450") (py " roundtrip"))
      (py "https://example.org/1") = ret (Some deal) /\
    departure deal = Some (strip (py "NYC")) /\
    destination deal = Some (strip (py "Paris, France ")) /\
    price deal = Some (float_of_Z (decimal (py "450"))) /\
    ((decimal (py "450") < 2 ^ 53)%Z ->
     float_to_Z (float_of_Z (decimal (py "450")))
     = Some (decimal (py "450"))) /\
    currency deal = Some (py "USD") /\
    title deal = shaped (py "NYC") (py "Paris, France ")
                   (py "- nonstop for ") (py "450") (py " roundtrip") /\
    link deal = py "https://example.org/1".
Proof.
  split; [reflexivity|]. split; [reflexivity|]. split; [reflexivity|].
  apply parse_deal_shaped_title; reflexivity.
Defined.

(** C1 fails as stated.  ["NYC to Paris to Rome $200"] has the shape with
    origin ["NYC"] and destination ["Paris to Rome "], yet the greedy first
    group takes ["NYC to Paris"]; ["NYC to Paris!\n$200"] has the shape,
    yet [.*?] does not cross the line feed and no deal comes out; and the
    price of ["NYC to Paris $9007199254740993"] is the float
    [9007199254740992]. *)
Lemma parse_deal_shape_not_enough :
  ~ (forall float_other A B mid N tail link,
       title_shape A B mid N tail = true ->
       exists deal,
         parse_deal float_other (shaped A B mid N tail) link
         = ret (Some deal) /\
         departure deal = Some (strip A) /\
         destination deal = Some (strip B)) /\
  ~ (forall float_other A B mid N tail link,
       title_shape A B mid N tail = true ->
       contains (py "to " ++ B) (py " to ") = false ->
       exists deal,
         parse_deal float_other (shaped A B mid N tail) link
         = ret (Some deal)) /\
  ~ (forall float_other A B mid N tail link,
       title_shape A B mid N tail = true ->
       contains (py "to " ++ B) (py " to ") = false ->
       forallb is_dot mid = true ->
       exists deal p,
         parse_deal float_other (shaped A B mid N tail) link
         = ret (Some deal) /\
         price deal = Some p /\ float_to_Z p = Some (decimal N)).
Proof.
  split; [|split]; intros H.
  - destruct (H float_other_rejects (py "NYC") (py "Paris to Rome ") []
                (py "200") [] [] eq_refl) as (deal & Hp & Hd & _).
    vm_compute in Hp. injection Hp as <-. vm_compute in Hd. discriminate.
  - destruct (H float_other_rejects (py "NYC") (py "Paris")
                (py "!" ++ line_feed) (py "200") [] [] eq_refl eq_refl)
      as (deal & Hp).
    vm_compute in Hp. discriminate.
  - destruct (H float_other_rejects (py "NYC") (py "Paris ") []
                (py "9007199254740993") [] [] eq_refl eq_refl eq_refl)
      as (deal & p & Hp & Hprice & Hz).
    vm_compute in Hp. injection Hp as <-. cbn [price] in Hprice.
    injection Hprice as <-. vm_compute in Hz. discriminate.
Qed.

(** C7.  [parse_deal] always returns and never raises; whatever the [try]
    block raises becomes [None]; a title the pattern does not match, in
    particular one without [" to "] followed later by a dollar sign, gives
    [None]; and the loop of a scraper keeps, in order, the deals of the
    entries that parse and goes on past the others. *)
Theorem parse_deal_total
  (float_other : str -> result float) (title link : str) :
  (exists r, parse_deal float_other title link = ret r) /\
  parse_deal float_other title link
  = match parse_deal_try float_other title link with
    | inl _ => ret None
    | inr r => ret r
    end /\
  (re_search title = None -> parse_deal float_other title link = ret None) /\
  ((forall pre mid post, title <> pre ++ py " to " ++ mid ++ py "$" ++ post) ->
   parse_deal float_other title link = ret None) /\
  (forall entries deals,
     parse_deal float_other title link = ret None ->
     collect_deals float_other (entry_of (title, link) :: entries) deals
     = collect_deals float_other entries deals) /\
  (forall pairs deals,
     collect_deals float_other (map entry_of pairs) deals
     = ret (deals ++
            flat_map (fun tl => entry_deals float_other (fst tl) (snd tl))
                     pairs)).
Proof.
  assert (Hnone : re_search title = None ->
                  parse_deal float_other title link = ret None)
    by apply parse_deal_no_match.
  repeat split.
  - destruct (re_search title) as [[[g1 g2] g3]|] eqn:E.
    + eexists. exact (parse_deal_match float_other title link _ _ _ E).
    + eexists. exact (parse_deal_no_match float_other title link E).
  - unfold parse_deal.
    destruct (parse_deal_try float_other title link) as [e|[d|]]; reflexivity.
  - exact Hnone.
  - intros H. apply Hnone.
    destruct (re_search title) as [[[g1 g2] g3]|] eqn:E; [exfalso|reflexivity].
    apply re_search_inv in E as (pre & mid & tail & E & _).
    apply (H (pre ++ g1) (g2 ++ mid) (g3 ++ tail)).
    rewrite E. unfold shaped. now rewrite <- !app_assoc.
  - intros entries deals H. unfold entry_of. cbn [fst snd].
    rewrite collect_deals_entry. unfold entry_deals. rewrite H.
    now rewrite app_nil_r.
  - intros pairs. induction pairs as [|[t l] pairs IH]; intros deals;
      cbn [map flat_map fst snd].
    + cbn [collect_deals]. now rewrite app_nil_r.
    + change (entry_of (t, l))
        with {| entry_title := Some t; entry_link := Some l |}.
      rewrite collect_deals_entry, IH. now rewrite <- app_assoc.
Qed.

Lemma parse_deal_total_witness :
  re_search (py "Flash sale: 50% off all fares") = None /\
  parse_deal float_other_rejects (py "Flash sale: 50% off all fares") []
  = ret None /\
  collect_deals float_other_rejects
    [entry_of (py "Flash sale: 50% off all fares", []);
     entry_of (py "NYC to Paris $200", py "https://example.org/1")] []
  = ret [nyc_paris].
Proof.
  destruct (parse_deal_total float_other_rejects
              (py "Flash sale: 50% off all fares") [])
    as (_ & _ & Hnone & _ & Hskip & _).
  split; [reflexivity|]. split; [apply Hnone; reflexivity|].
  rewrite Hskip; [reflexivity|apply Hnone; reflexivity].
Defined.

(** ** Preference filter *)

(** C2 (as amended).  A deal whose departure is present and not empty
    passes the departure predicate exactly when the departure is a member
    of [prefs.departure_airports]; a deal whose departure is absent or
    empty always passes it. *)
Theorem departure_predicate (deal : TravelDeal) (prefs : UserPreferences) :
  match departure deal with
  | None | Some [] => departure_passes deal prefs = true
  | Some dep =>
      departure_passes deal prefs = true <-> In dep (departure_airports prefs)
  end.
Proof.
  unfold departure_passes, departure_rejected.
  destruct (departure deal) as [[|c dep]|]; simpl; try reflexivity.
  rewrite negb_involutive. apply existsb_str_eqb.
Qed.

(** C2 fails as stated: a deal with the empty departure passes although the
    empty string is not among the airports. *)
Lemma departure_present_not_enough :
  ~ (forall deal prefs dep,
       departure deal = Some dep ->
       (departure_passes deal prefs = true <->
        In dep (departure_airports prefs))).
Proof.
  intros H.
  destruct (H (with_departure (Some []) nyc_paris)
              (prefs_of [py "JFK"] [] None) [] eq_refl) as [H1 _].
  destruct (H1 eq_refl) as [E|[]]. discriminate.
Qed.

(** C9.  A deal whose departure is the empty string passes the departure
    predicate whatever the preferences; and [parse_deal] yields such a deal
    from a shaped title whose origin is all white space. *)
Theorem empty_departure_passes :
  (forall deal prefs,
     departure deal = Some [] -> departure_passes deal prefs = true) /\
  (forall float_other A B mid N tail url,
     title_shape A B mid N tail = true ->
     contains (py "to " ++ B) (py " to ") = false ->
     forallb is_dot mid = true ->
     forallb is_space A = true ->
     exists deal,
       parse_deal float_other (shaped A B mid N tail) url = ret (Some deal) /\
       departure deal = Some [] /\
       forall prefs, departure_passes deal prefs = true).
Proof.
  assert (H : forall deal prefs,
             departure deal = Some [] -> departure_passes deal prefs = true).
  { intros deal prefs E. unfold departure_passes, departure_rejected.
    now rewrite E. }
  split; [exact H|].
  intros float_other A B mid N tail url Hs Hto Hdot HA.
  exists (deal_of (shaped A B mid N tail) url A B N).
  assert (E : departure (deal_of (shaped A B mid N tail) url A B N) = Some [])
    by (cbn [departure deal_of]; now rewrite strip_all_space).
  split; [now apply parse_deal_shaped|]. split; [exact E|].
  intros prefs. now apply H.
Qed.

Lemma empty_departure_passes_witness :
  (departure (with_departure (Some []) nyc_paris) = Some [] /\
   ~ In [] (departure_airports (prefs_of [py "JFK"] [] None)) /\
   departure_passes (with_departure (Some []) nyc_paris)
                    (prefs_of [py "JFK"] [] None) = true) /\
  exists deal,
    parse_deal float_other_rejects
      (shaped (py " ") (py "Paris ") [] (py "100") []) [] = ret (Some deal) /\
    departure deal = Some [] /\
    forall prefs, departure_passes deal prefs = true.
Proof.
  destruct empty_departure_passes as [H1 H2]. split.
  - split; [reflexivity|]. split; [|apply H1; reflexivity].
    intros [E|[]]. discriminate.
  - apply H2; reflexivity.
Defined.

(** C5 (as amended).  A deal whose destination is present and not empty
    passes the destination predicate exactly when some keyword of
    [prefs.destination_keywords] occurs in it as a substring up to case; a
    deal whose destination is absent or empty always passes it. *)
Theorem destination_predicate (deal : TravelDeal) (prefs : UserPreferences) :
  match destination deal with
  | None | Some [] => destination_passes deal prefs = true
  | Some dest =>
      destination_passes deal prefs = true <->
      exists kw, In kw (destination_keywords prefs) /\
                 occurs_ignoring_case kw dest
  end.
Proof.
  unfold destination_passes, destination_rejected.
  destruct (destination deal) as [[|c dest]|]; try reflexivity.
  cbn [str_truthy andb]. rewrite negb_involutive, existsb_exists.
  split; intros (kw & Hin & H); exists kw; split; auto;
    now apply contains_lower_iff.
Qed.

(** C5 fails as stated: a deal with the empty destination passes although
    no keyword occurs in it. *)
Lemma destination_present_not_enough :
  ~ (forall deal prefs dest,
       destination deal = Some dest ->
       (destination_passes deal prefs = true <->
        exists kw, In kw (destination_keywords prefs) /\
                   occurs_ignoring_case kw dest)).
Proof.
  intros H.
  destruct (H (with_destination (Some []) nyc_paris)
              (prefs_of [] [py "Paris"] None) [] eq_refl) as [H1 _].
  destruct (H1 eq_refl) as (kw & [<-|[]] & pre & mid & post & E & F).
  inversion F; subst. now destruct pre.
Qed.

(** C6.  With a positive [max_price] and a price both set, the deal passes
    the price predicate exactly when the price is at most [max_price]; when
    either is absent the deal passes.  A price is a number: the prices of
    the data model are decimals, and [parse_deal], the only place where a
    deal is built, never gives a NaN. *)
Theorem price_predicate (deal : TravelDeal) (prefs : UserPreferences) :
  match max_price prefs, price deal with
  | Some m, Some p =>
      float_lt (S754_zero false) m = true ->
      is_nan p = false ->
      (price_passes deal prefs = true <-> float_le p m = true)
  | _, _ => price_passes deal prefs = true
  end.
Proof.
  unfold price_passes, price_rejected.
  destruct (max_price prefs) as [m|], (price deal) as [p|]; simpl;
    try reflexivity; [|now rewrite andb_false_r].
  intros Hm Hp.
  assert (Hmn : is_nan m = false) by (destruct m; auto; discriminate).
  assert (Hmt : float_truthy m = true) by (destruct m; auto; discriminate).
  rewrite Hmt, (float_gt_le p m Hp Hmn). simpl.
  destruct (float_truthy p) eqn:Ht; simpl.
  - rewrite negb_involutive. tauto.
  - split; [intros _|reflexivity].
    destruct p; try discriminate.
    destruct m as [| [] | | [] ]; auto; discriminate.
Qed.

Lemma price_predicate_witness :
  float_lt (S754_zero false) (float_of_Z 300) = true /\
  is_nan (float_of_Z 450) = false /\
  (price_passes (with_price (Some (float_of_Z 450)) nyc_paris)
                (prefs_of [] [] (Some (float_of_Z 300))) = true <->
   float_le (float_of_Z 450) (float_of_Z 300) = true) /\
  price_passes (with_price (Some (float_of_Z 450)) nyc_paris)
               (prefs_of [] [] (Some (float_of_Z 300))) = false /\
  price_passes (with_price (Some (float_of_Z 250)) nyc_paris)
               (prefs_of [] [] (Some (float_of_Z 300))) = true.
Proof.
  split; [reflexivity|]. split; [reflexivity|]. split.
  - apply (price_predicate (with_price (Some (float_of_Z 450)) nyc_paris)
                           (prefs_of [] [] (Some (float_of_Z 300))));
      reflexivity.
  - split; reflexivity.
Defined.

(** C10.  When [max_price] is zero the price predicate passes for every
    deal, so [filter_deals] excludes no deal on price. *)
Theorem zero_max_price_passes (prefs : UserPreferences) (s : bool) :
  max_price prefs = Some (S754_zero s) ->
  (forall deal, price_passes deal prefs = true) /\
  (forall deals,
     filter_deals deals prefs
     = filter (fun d => departure_passes d prefs && destination_passes d prefs)
              deals).
Proof.
  intros E.
  assert (H : forall deal, price_passes deal prefs = true).
  { intros deal. unfold price_passes, price_rejected. now rewrite E. }
  split; [exact H|]. intros deals. rewrite filter_deals_spec.
  apply filter_ext. intros d. unfold passes. rewrite H. apply andb_true_r.
Qed.

Lemma zero_max_price_passes_witness :
  max_price (prefs_of [] [] (Some (S754_zero false)))
  = Some (S754_zero false) /\
  (forall deal,
     price_passes deal (prefs_of [] [] (Some (S754_zero false))) = true) /\
  (forall deals,
     filter_deals deals (prefs_of [] [] (Some (S754_zero false)))
     = filter (fun d =>
                 departure_passes d (prefs_of [] [] (Some (S754_zero false)))
                 && destination_passes d
                      (prefs_of [] [] (Some (S754_zero false))))
              deals).
Proof.
  split; [reflexivity|].
  apply (zero_max_price_passes (prefs_of [] [] (Some (S754_zero false))) false).
  reflexivity.
Defined.

(** ** Feed cache and aggregation *)

Section Scrapers.

Variable float_other : str -> result float.
Variable feedparser_parse : list str -> str -> result (list Entry).

Lemma scrape_hit (src : Source) (now : float) (w : World) :
  float_lt (float_sub now (timestamp (source_entry src (cache w)))) CACHE_TTL
  = true ->
  scrape float_other feedparser_parse src now w
  = (data (source_entry src (cache w)), w).
Proof.
  intros H. destruct src; unfold scrape, scrape_secret_flying,
    scrape_the_flight_deal; cbn [source_entry] in H; now rewrite H.
Qed.

Lemma scrape_failure (src : Source) (now : float) (w : World) (e : exn) :
  float_lt (float_sub now (timestamp (source_entry src (cache w)))) CACHE_TTL
  = false ->
  scrape_try float_other feedparser_parse (source_url src) w = raise e ->
  scrape float_other feedparser_parse src now w
  = ([], record_fetch (source_url src) w).
Proof.
  intros H E.
  destruct src; unfold scrape, scrape_secret_flying,
    scrape_the_flight_deal; cbn [source_entry source_url] in *;
    now rewrite H, E.
Qed.

Lemma scrape_success (src : Source) (now : float) (w : World)
  (deals : list TravelDeal) :
  float_lt (float_sub now (timestamp (source_entry src (cache w)))) CACHE_TTL
  = false ->
  scrape_try float_other feedparser_parse (source_url src) w = ret deals ->
  scrape float_other feedparser_parse src now w
  = (deals, refreshed src now deals w).
Proof.
  intros H E.
  destruct src; unfold scrape, scrape_secret_flying,
    scrape_the_flight_deal; cbn [source_entry source_url] in *;
    now rewrite H, E.
Qed.

(** C3.  When a refresh of a source is due and the [try] block of its
    scraper raises, the call returns the empty list, not the cached deals,
    and the cache is what it was before the call: the time stamp and the
    data of both entries.  The one fetch is all that happened. *)
Theorem failed_refresh_keeps_cache
  (src : Source) (now : float) (w : World) (e : exn) :
  float_le CACHE_TTL
           (float_sub now (timestamp (source_entry src (cache w)))) = true ->
  scrape_try float_other feedparser_parse (source_url src) w = raise e ->
  fst (scrape float_other feedparser_parse src now w) = [] /\
  cache (snd (scrape float_other feedparser_parse src now w)) = cache w /\
  source_entry src (cache (snd (scrape float_other feedparser_parse src now w)))
  = source_entry src (cache w) /\
  fetched (snd (scrape float_other feedparser_parse src now w))
  = fetched w ++ [source_url src].
Proof.
  intros Hdue E. apply float_le_not_lt in Hdue.
  rewrite (scrape_failure src now w e Hdue E). auto.
Qed.

(** C4.  When [now] minus the time stamp of a source's entry is below the
    TTL, the scraper returns the cached data and leaves the world as it
    was: nothing is fetched and no entry of the cache changes.  Hence, after
    a call at a finite [now] that refreshed the entry, a second call at the
    same [now] returns the same deals and fetches nothing: the two calls
    fetch once. *)
Theorem cache_hit_is_pure :
  (forall src now w,
     float_lt (float_sub now (timestamp (source_entry src (cache w))))
              CACHE_TTL = true ->
     scrape float_other feedparser_parse src now w
     = (data (source_entry src (cache w)), w)) /\
  (forall src now w deals,
     is_finite now = true ->
     float_lt (float_sub now (timestamp (source_entry src (cache w))))
              CACHE_TTL = false ->
     scrape_try float_other feedparser_parse (source_url src) w = ret deals ->
     let first := scrape float_other feedparser_parse src now w in
     let second := scrape float_other feedparser_parse src now (snd first) in
     fst second = fst first /\ snd second = snd first /\
     fetched (snd second) = fetched w ++ [source_url src]).
Proof.
  split; [exact scrape_hit|].
  intros src now w deals Hfin Hstale E first second.
  assert (E1 : first = (deals, refreshed src now deals w))
    by (apply scrape_success; assumption).
  assert (E2 : second = (deals, refreshed src now deals w)).
  { unfold second. rewrite E1. cbn [snd].
    rewrite scrape_hit.
    - now destruct src.
    - replace (timestamp (source_entry src (cache (refreshed src now deals w))))
        with now by now destruct src.
      now rewrite float_sub_diag. }
  rewrite E1, E2. auto.
Qed.

(** C8.  [all_deals] is the list of the first scraper followed by the list
    of the second, which runs in the world the first one left; nothing is
    removed, so the deals that satisfy any test are as many as in the two
    lists together. *)
Theorem all_deals_concatenates (t1 t2 : float) (w : World) :
  let sf := scrape_secret_flying float_other feedparser_parse t1 w in
  let tfd :=
    scrape_the_flight_deal float_other feedparser_parse t2 (snd sf) in
  let all := all_deals float_other feedparser_parse t1 t2 w in
  all = (fst sf ++ fst tfd, snd tfd) /\
  (forall f : TravelDeal -> bool,
     List.length (filter f (fst all))
     = List.length (filter f (fst sf)) + List.length (filter f (fst tfd))) /\
  (forall d : TravelDeal, In d (fst sf) -> In d (fst tfd) ->
     exists l1 l2 l3, fst all = l1 ++ d :: l2 ++ d :: l3).
Proof.
  intros sf tfd all.
  assert (E : all = (fst sf ++ fst tfd, snd tfd)).
  { unfold all, all_deals. fold sf. destruct sf as [a w1]. cbn [snd] in tfd.
    fold tfd. now destruct tfd. }
  rewrite E. cbn [fst]. repeat split.
  - intros f. now rewrite filter_app, length_app.
  - intros d H1 H2. apply in_split in H1 as (l1 & l2 & ->).
    apply in_split in H2 as (l3 & l4 & ->).
    exists l1, (l2 ++ l3), l4. now rewrite <- !app_assoc.
Qed.

End Scrapers.

Lemma failed_refresh_keeps_cache_witness :
  float_le CACHE_TTL
    (float_sub (float_of_Z 2000)
       (timestamp (source_entry SecretFlying (cache (world_of cache_at_1000)))))
  = true /\
  scrape_try float_other_rejects feed_down (source_url SecretFlying)
             (world_of cache_at_1000) = raise FeedError /\
  fst (scrape float_other_rejects feed_down SecretFlying (float_of_Z 2000)
              (world_of cache_at_1000)) = [] /\
  cache (snd (scrape float_other_rejects feed_down SecretFlying
                     (float_of_Z 2000) (world_of cache_at_1000)))
  = cache_at_1000 /\
  source_entry SecretFlying
    (cache (snd (scrape float_other_rejects feed_down SecretFlying
                        (float_of_Z 2000) (world_of cache_at_1000))))
  = {| timestamp := float_of_Z 1000; data := [nyc_paris] |} /\
  fetched (snd (scrape float_other_rejects feed_down SecretFlying
                       (float_of_Z 2000) (world_of cache_at_1000)))
  = fetched (world_of cache_at_1000) ++ [source_url SecretFlying].
Proof.
  split; [reflexivity|]. split; [reflexivity|].
  apply (failed_refresh_keeps_cache float_other_rejects feed_down SecretFlying
           (float_of_Z 2000) (world_of cache_at_1000) FeedError);
    reflexivity.
Defined.

Lemma cache_hit_is_pure_witness :
  (float_lt
     (float_sub (float_of_Z 1100)
        (timestamp
           (source_entry TheFlightDeal (cache (world_of cache_at_1000)))))
     CACHE_TTL = true /\
   scrape float_other_rejects feed_down TheFlightDeal (float_of_Z 1100)
          (world_of cache_at_1000)
   = ([nyc_paris], world_of cache_at_1000)) /\
  (is_finite (float_of_Z 1000) = true /\
   float_lt
     (float_sub (float_of_Z 1000)
        (timestamp (source_entry SecretFlying (cache (world_of cache_init)))))
     CACHE_TTL = false /\
   scrape_try float_other_rejects paris_feed (source_url SecretFlying)
              (world_of cache_init) = ret [nyc_paris] /\
   fst (scrape float_other_rejects paris_feed SecretFlying (float_of_Z 1000)
          (snd (scrape float_other_rejects paris_feed SecretFlying
                  (float_of_Z 1000) (world_of cache_init))))
   = fst (scrape float_other_rejects paris_feed SecretFlying
            (float_of_Z 1000) (world_of cache_init)) /\
   snd (scrape float_other_rejects paris_feed SecretFlying (float_of_Z 1000)
          (snd (scrape float_other_rejects paris_feed SecretFlying
                  (float_of_Z 1000) (world_of cache_init))))
   = snd (scrape float_other_rejects paris_feed SecretFlying
            (float_of_Z 1000) (world_of cache_init)) /\
   fetched
     (snd (scrape float_other_rejects paris_feed SecretFlying
             (float_of_Z 1000)
             (snd (scrape float_other_rejects paris_feed SecretFlying
                     (float_of_Z 1000) (world_of cache_init)))))
   = fetched (world_of cache_init) ++ [source_url SecretFlying]).
Proof.
  split.
  - split; [reflexivity|].
    apply (proj1 (cache_hit_is_pure float_other_rejects feed_down)).
    reflexivity.
  - split; [reflexivity|]. split; [reflexivity|]. split; [reflexivity|].
    apply (proj2 (cache_hit_is_pure float_other_rejects paris_feed)
             SecretFlying (float_of_Z 1000) (world_of cache_init) [nyc_paris]);
      reflexivity.
Defined.

Lemma all_deals_concatenates_witness :
  In nyc_paris
     (fst (scrape_secret_flying float_other_rejects paris_feed
             (float_of_Z 1000) (world_of cache_init))) /\
  In nyc_paris
     (fst (scrape_the_flight_deal float_other_rejects paris_feed
             (float_of_Z 1000)
             (snd (scrape_secret_flying float_other_rejects paris_feed
                     (float_of_Z 1000) (world_of cache_init))))) /\
  fst (all_deals float_other_rejects paris_feed (float_of_Z 1000)
         (float_of_Z 1000) (world_of cache_init))
  = [nyc_paris; nyc_paris] /\
  exists l1 l2 l3,
    fst (all_deals float_other_rejects paris_feed (float_of_Z 1000)
           (float_of_Z 1000) (world_of cache_init))
    = l1 ++ nyc_paris :: l2 ++ nyc_paris :: l3.
Proof.
  destruct (all_deals_concatenates float_other_rejects paris_feed
              (float_of_Z 1000) (float_of_Z 1000) (world_of cache_init))
    as (E & _ & Hdup).
  split; [left; reflexivity|]. split; [left; reflexivity|].
  split; [rewrite E; reflexivity|].
  apply Hdup; left; reflexivity.
Defined.

(** ** The examples of the specification *)

Example filter_departure_example :
  filter_deals [with_departure (Some (py "LAX")) nyc_paris;
                with_departure None nyc_paris]
               (prefs_of [py "JFK"] [py "paris"] None)
  = [with_departure None nyc_paris].
Proof. reflexivity. Qed.

Example filter_destination_example :
  filter_deals [with_destination (Some (py "Paris, France")) nyc_paris;
                with_destination (Some (py "London")) nyc_paris]
               (prefs_of [py "NYC"] [py "Paris"] None)
  = [with_destination (Some (py "Paris, France")) nyc_paris].
Proof. reflexivity. Qed.

Example filter_price_example :
  filter_deals [with_price (Some (float_of_Z 450)) nyc_paris;
                with_price None nyc_paris]
               (prefs_of [py "NYC"] [py "Paris"] (Some (float_of_Z 300)))
  = [with_price None nyc_paris].
Proof. reflexivity. Qed.

Example parse_deal_example :
  parse_deal float_other_rejects (py "NYC to Paris $200")
             (py "https://example.org/1") = ret (Some nyc_paris) /\
  departure nyc_paris = Some (py "NYC") /\
  destination nyc_paris = Some (py "Paris") /\
  price nyc_paris = Some (S754_finite false 7036874417766400 (-45)).
Proof. repeat split. Qed.

Example parse_deal_greedy_destination :
  re_search (py "NYC to Paris for the holidays $200 or $99")
  = Some (py "NYC", py "Paris for the holidays ", py "200").
Proof. reflexivity. Qed.

Example find_deals_empty_feeds :
  fst (find_deals float_other_rejects (feed_gives [])
         (prefs_of [py "JFK"] [py "Paris"] None)
         (float_of_Z 1000) (float_of_Z 1000) (world_of cache_init)) = [].
Proof. reflexivity. Qed.

(** * Further properties *)

(** ** The matcher is complete, and its choices are extremal *)

Section BacktrackingOrder.
Variable R : Type.

Lemma re_star_none_all (p : ascii -> bool) (s : str)
  (k : str -> str -> option R) :
  re_star p s k = None ->
  forall g r, s = g ++ r -> forallb p g = true -> k g r = None.
Proof.
  revert k; induction s as [|c s IH]; intros k H g r E Hg.
  - destruct g; [|discriminate]. simpl in E. subst r. exact H.
  - simpl in H. destruct g as [|d g].
    + simpl in E. subst r.
      destruct (p c); [|exact H].
      destruct (re_star p s (fun g rest => k (c :: g) rest)); [discriminate|].
      exact H.
    + simpl in E. injection E as <- ->. simpl in Hg.
      apply andb_prop in Hg as [Hc Hg]. rewrite Hc in H.
      destruct (re_star p (g ++ r) (fun g rest => k (c :: g) rest)) eqn:E1;
        [discriminate|].
      exact (IH _ E1 g r eq_refl Hg).
Qed.

Lemma re_plus_none_all (p : ascii -> bool) (s : str)
  (k : str -> str -> option R) :
  re_plus p s k = None ->
  forall g r, g <> [] -> s = g ++ r -> forallb p g = true -> k g r = None.
Proof.
  intros H [|c g] r Hne E Hg; [congruence|]. subst s. simpl in *.
  apply andb_prop in Hg as [Hc Hg]. rewrite Hc in H.
  exact (re_star_none_all p (g ++ r) _ H g r eq_refl Hg).
Qed.

Lemma re_star_lazy_none_all (p : ascii -> bool) (s : str)
  (k : str -> option R) :
  re_star_lazy p s k = None ->
  forall m r, s = m ++ r -> forallb p m = true -> k r = None.
Proof.
  induction s as [|c s IH]; intros H m r E Hm.
  - destruct m; [|discriminate]. simpl in E. subst r. simpl in H.
    now destruct (k []).
  - simpl in H. destruct (k (c :: s)) eqn:Ek; [discriminate|].
    destruct m as [|d m].
    + simpl in E. now subst r.
    + simpl in E. injection E as <- ->. simpl in Hm.
      apply andb_prop in Hm as [Hc Hm]. rewrite Hc in H.
      exact (IH H m r eq_refl Hm).
Qed.

(** A greedy run is the longest one after which the rest matches. *)
Lemma re_star_longest (p : ascii -> bool) (s : str)
  (k : str -> str -> option R) (v : R) :
  re_star p s k = Some v ->
  exists g r, s = g ++ r /\ forallb p g = true /\ k g r = Some v /\
    forall x r', x <> [] -> r = x ++ r' -> forallb p x = true ->
                 k (g ++ x) r' = None.
Proof.
  revert k; induction s as [|c s IH]; intros k H; simpl in H.
  - exists [], []. repeat split; auto.
    intros [|d x] r' Hx E; [congruence|discriminate].
  - destruct (p c) eqn:Hc.
    + destruct (re_star p s (fun g rest => k (c :: g) rest)) as [v'|] eqn:E1.
      * injection H as ->.
        destruct (IH _ E1) as (g & r & -> & Hg & Hk & Hmax).
        exists (c :: g), r. simpl. rewrite Hc. repeat split; auto.
      * exists [], (c :: s). repeat split; auto.
        intros [|d x] r' Hx E Hpx; [congruence|].
        simpl in E. injection E as <- ->. simpl in Hpx.
        apply andb_prop in Hpx as [_ Hpx].
        exact (re_star_none_all p (x ++ r') _ E1 x r' eq_refl Hpx).
    + exists [], (c :: s). repeat split; auto.
      intros [|d x] r' Hx E Hpx; [congruence|].
      simpl in E. injection E as <- ->. simpl in Hpx.
      rewrite Hc in Hpx. discriminate.
Qed.

Lemma re_plus_longest (p : ascii -> bool) (s : str)
  (k : str -> str -> option R) (v : R) :
  re_plus p s k = Some v ->
  exists g r, s = g ++ r /\ g <> [] /\ forallb p g = true /\
    k g r = Some v /\
    forall x r', x <> [] -> r = x ++ r' -> forallb p x = true ->
                 k (g ++ x) r' = None.
Proof.
  destruct s as [|c s]; simpl; [discriminate|].
  destruct (p c) eqn:Hc; [|discriminate]. intros H.
  apply re_star_longest in H as (g & r & -> & Hg & Hk & Hmax).
  exists (c :: g), r. simpl. rewrite Hc. repeat split; auto. discriminate.
Qed.

(** A lazy run is the shortest one after which the rest matches. *)
Lemma re_star_lazy_shortest (p : ascii -> bool) (s : str)
  (k : str -> option R) (v : R) :
  re_star_lazy p s k = Some v ->
  exists m r, s = m ++ r /\ forallb p m = true /\ k r = Some v /\
    forall m1 m2, m = m1 ++ m2 -> m2 <> [] -> k (m2 ++ r) = None.
Proof.
  induction s as [|c s IH]; simpl; intros H.
  - destruct (k []) eqn:E; [|discriminate]. injection H as ->.
    exists [], []. repeat split; auto.
    intros m1 m2 E' Hm2. symmetry in E'. apply app_eq_nil in E' as [_ ->].
    congruence.
  - destruct (k (c :: s)) eqn:E.
    + injection H as ->. exists [], (c :: s). repeat split; auto.
      intros m1 m2 E' Hm2. symmetry in E'. apply app_eq_nil in E' as [_ ->].
      congruence.
    + destruct (p c) eqn:Hc; [|discriminate].
      destruct (IH H) as (m & r & -> & Hm & Hk & Hmin).
      exists (c :: m), r. simpl. rewrite Hc. repeat split; auto.
      intros [|d m1] m2 E' Hm2.
      * simpl in E'. subst m2. exact E.
      * simpl in E'. injection E' as _ E'. now apply (Hmin m1 m2).
Qed.

End BacktrackingOrder.

Lemma re_match_stages (s : str) :
  re_match s = re_plus origin_char s match_destination.
Proof. reflexivity. Qed.

Lemma match_price_some (g1 g2 g3 tail : str) :
  g3 <> [] -> forallb is_digit g3 = true ->
  match_price g1 g2 (py "$" ++ g3 ++ tail) <> None.
Proof.
  intros Hn Hd H. unfold match_price in H. rewrite re_lit_app in H.
  pose proof (re_plus_none_all _ is_digit (g3 ++ tail) _ H g3 tail Hn eq_refl
                Hd).
  discriminate.
Qed.

Lemma match_price_dollar (g1 g2 s : str) :
  dollar_price s = true -> match_price g1 g2 s <> None.
Proof.
  destruct s as [|c [|d s]]; try discriminate. simpl.
  intros H. apply andb_prop in H as [Hc Hd]. apply Ascii.eqb_eq in Hc as ->.
  exact (match_price_some g1 g2 [d] s ltac:(discriminate)
           ltac:(simpl; now rewrite Hd)).
Qed.

Lemma match_price_inv (g1 g2 s : str) (v : str * str * str) :
  match_price g1 g2 s = Some v ->
  exists g3 tail,
    s = py "$" ++ g3 ++ tail /\ v = (g1, g2, g3) /\
    (g3 <> [] /\ forallb is_digit g3 = true) /\
    head_fails is_digit tail = true.
Proof.
  unfold match_price. intros H.
  apply re_lit_inv in H as (s5 & -> & H).
  apply re_plus_longest in H as (g3 & tail & -> & Hn & Hd & Hv & Hmax).
  injection Hv as <-. exists g3, tail. repeat split; auto.
  destruct tail as [|c tail]; [reflexivity|]. simpl.
  destruct (is_digit c) eqn:Hc; [|reflexivity].
  specialize (Hmax [c] tail ltac:(discriminate) eq_refl
                ltac:(simpl; now rewrite Hc)).
  discriminate.
Qed.

Lemma match_rest_some (g1 g2 mid r : str) :
  forallb is_dot mid = true -> match_price g1 g2 r <> None ->
  match_rest g1 g2 (mid ++ r) <> None.
Proof.
  intros Hm Hk H. apply Hk.
  exact (re_star_lazy_none_all _ is_dot (mid ++ r) _ H mid r eq_refl Hm).
Qed.

Lemma match_destination_some (g1 g2 mid g3 tail : str) :
  groups_ok g1 g2 mid g3 ->
  match_destination g1 (py " to " ++ g2 ++ mid ++ py "$" ++ g3 ++ tail)
  <> None.
Proof.
  intros (_ & (Hn2 & Hd2) & Hmid & (Hn3 & Hd3)) H.
  unfold match_destination in H. rewrite re_lit_app in H.
  pose proof (re_plus_none_all _ destination_char _ _ H g2
                (mid ++ py "$" ++ g3 ++ tail) Hn2 eq_refl Hd2) as H1.
  now apply (match_rest_some g1 g2 mid (py "$" ++ g3 ++ tail) Hmid
               (match_price_some g1 g2 g3 tail Hn3 Hd3)).
Qed.

(** Wherever the pattern can match, the matcher finds a match. *)
Lemma re_match_complete (g1 g2 mid g3 tail : str) :
  groups_ok g1 g2 mid g3 -> re_match (shaped g1 g2 mid g3 tail) <> None.
Proof.
  intros Hg H. rewrite re_match_stages in H.
  destruct Hg as ((Hn1 & Hd1) & Hrest).
  pose proof (re_plus_none_all _ origin_char _ _ H g1
                (py " to " ++ g2 ++ mid ++ py "$" ++ g3 ++ tail)
                Hn1 eq_refl Hd1) as H1.
  apply (match_destination_some g1 g2 mid g3 tail); [|exact H1].
  unfold groups_ok. auto.
Qed.

Lemma re_search_none_all (s : str) :
  re_search s = None ->
  forall pre s', s = pre ++ s' -> re_match s' = None.
Proof.
  induction s as [|c s IH]; cbn [re_search]; intros H pre s' E.
  - destruct pre; [|discriminate]. simpl in E. subst s'.
    now destruct (re_match []).
  - destruct (re_match (c :: s)) eqn:Em; [discriminate|].
    destruct pre as [|d pre].
    + simpl in E. now subst s'.
    + simpl in E. injection E as <- ->. exact (IH H pre s' eq_refl).
Qed.

Lemma re_search_complete (t : str) :
  title_matches t -> re_search t <> None.
Proof.
  intros (pre & g1 & g2 & mid & g3 & tail & -> & Hg) H.
  apply (re_match_complete g1 g2 mid g3 tail Hg).
  exact (re_search_none_all _ H pre _ eq_refl).
Qed.

Lemma re_search_sound (t : str) (m : str * str * str) :
  re_search t = Some m -> title_matches t.
Proof.
  destruct m as [[g1 g2] g3]. intros H.
  apply re_search_inv in H as (pre & mid & tail & -> & Hg).
  now exists pre, g1, g2, mid, g3, tail.
Qed.

(** The search stops at the first position that has a match. *)
Lemma re_search_leftmost (s : str) (m : str * str * str) :
  re_search s = Some m ->
  exists pre s',
    s = pre ++ s' /\ re_match s' = Some m /\
    forall p1 p2, pre = p1 ++ p2 -> p2 <> [] -> re_match (p2 ++ s') = None.
Proof.
  induction s as [|c s IH]; cbn [re_search]; intros H.
  - destruct (re_match []) eqn:E; [|discriminate]. injection H as ->.
    exists [], []. repeat split; auto.
    intros p1 p2 E' Hp. symmetry in E'. apply app_eq_nil in E' as [_ ->].
    congruence.
  - destruct (re_match (c :: s)) eqn:E.
    + injection H as ->. exists [], (c :: s). repeat split; auto.
      intros p1 p2 E' Hp. symmetry in E'. apply app_eq_nil in E' as [_ ->].
      congruence.
    + destruct (IH H) as (pre & s' & -> & Hm & Hleft).
      exists (c :: pre), s'. repeat split; auto.
      intros [|d p1] p2 E' Hp.
      * simpl in E'. subst p2. exact E.
      * simpl in E'. injection E' as _ E'. now apply (Hleft p1 p2).
Qed.

Lemma app_prefix_split (a b c d : str) :
  a ++ b = c ++ d -> List.length a <= List.length c -> exists x, c = a ++ x.
Proof.
  revert c; induction a as [|h a IH]; intros c E L.
  - now exists c.
  - destruct c as [|h' c]; [simpl in L; lia|].
    simpl in E. injection E as -> E. simpl in L.
    destruct (IH c E ltac:(lia)) as [x ->]. now exists x.
Qed.

(** What the three groups of a match at the head of [s] are: the longest
    origin after which the rest matches, the whole run of destination
    characters, the first dollar sign followed by a digit, and the whole
    run of digits. *)
Lemma re_match_extremal (s g1 g2 g3 : str) :
  re_match s = Some (g1, g2, g3) ->
  exists mid tail,
    s = shaped g1 g2 mid g3 tail /\ groups_ok g1 g2 mid g3 /\
    head_fails destination_char mid = true /\
    head_fails is_digit tail = true /\
    (forall m1 m2, mid = m1 ++ m2 -> m2 <> [] ->
       dollar_price (m2 ++ py "$" ++ g3 ++ tail) = false) /\
    (forall g1' g2' mid' g3' tail',
       s = shaped g1' g2' mid' g3' tail' -> groups_ok g1' g2' mid' g3' ->
       List.length g1' <= List.length g1).
Proof.
  rewrite re_match_stages. intros H.
  apply re_plus_longest in H as (a & s1 & -> & Ha & Hpa & H & Hmax1).
  unfold match_destination in H.
  apply re_lit_inv in H as (s2 & -> & H).
  apply re_plus_longest in H as (b & s3 & -> & Hb & Hpb & H & Hmax2).
  unfold match_rest in H.
  apply re_star_lazy_shortest in H as (mid & s4 & -> & Hmid & H & Hmin).
  destruct (match_price_inv a b s4 (g1, g2, g3) H)
    as (n & tail & -> & Hv & (Hn & Hpn) & Htail).
  injection Hv as -> -> ->.
  exists mid, tail. unfold groups_ok. repeat split; auto.
  - destruct mid as [|c mid]; [reflexivity|]. simpl.
    destruct (destination_char c) eqn:Hc; [exfalso|reflexivity].
    simpl in Hmid. apply andb_prop in Hmid as [_ Hmid].
    apply (match_rest_some a (b ++ [c]) mid (py "$" ++ n ++ tail) Hmid
             (match_price_some a (b ++ [c]) n tail Hn Hpn)).
    apply (Hmax2 [c] (mid ++ py "$" ++ n ++ tail));
      [discriminate|reflexivity|simpl; now rewrite Hc].
  - intros m1 m2 E Hm2.
    destruct (dollar_price (m2 ++ py "$" ++ n ++ tail)) eqn:Hd; [|reflexivity].
    exfalso. apply (match_price_dollar a b _ Hd). now apply (Hmin m1 m2).
  - intros a' b' mid' n' tail' E Hg.
    destruct (Nat.le_gt_cases (List.length a') (List.length a)) as [|L];
      [assumption|].
    exfalso. unfold shaped in E.
    destruct (app_prefix_split a _ a' _ E ltac:(lia)) as [x Hx]. subst a'.
    rewrite <- app_assoc in E. apply app_inv_head in E.
    assert (Hx : x <> []).
    { intros ->. rewrite app_nil_r in L. lia. }
    destruct Hg as ((_ & Hpa') & Hrest).
    rewrite forallb_app in Hpa'. apply andb_prop in Hpa' as [_ Hpx].
    apply (match_destination_some (a ++ x) b' mid' n' tail').
    + unfold groups_ok. repeat split; try tauto.
      * intros E'. apply app_eq_nil in E' as [_ ->]. congruence.
      * rewrite forallb_app, Hpa, Hpx. reflexivity.
    + exact (Hmax1 x _ Hx E Hpx).
Qed.

(** ** Floats that come from digits *)

Lemma shr_1_nonneg (mrs : shr_record) :
  (0 <= shr_m mrs)%Z -> (0 <= shr_m (shr_1 mrs))%Z.
Proof.
  destruct mrs as [m r s]. simpl.
  destruct m as [|[p|p|]|[p|p|]]; simpl; lia.
Qed.

Lemma iter_shr_1_nonneg (n : positive) (mrs : shr_record) :
  (0 <= shr_m mrs)%Z -> (0 <= shr_m (iter_pos shr_1 n mrs))%Z.
Proof.
  revert mrs; induction n as [n IH|n IH|]; intros mrs H; simpl.
  - apply IH, IH, shr_1_nonneg, H.
  - apply IH, IH, H.
  - apply shr_1_nonneg, H.
Qed.

Lemma shr_fexp_nonneg (m e : Z) (l : location) :
  (0 <= m)%Z -> (0 <= shr_m (fst (shr_fexp 53 1024 m e l)))%Z.
Proof.
  intros H. unfold shr_fexp, shr.
  assert (H0 : (0 <= shr_m (shr_record_of_loc m l))%Z)
    by (destruct l as [|[]]; exact H).
  destruct (fexp 53 1024 (Zdigits2 m + e) - e)%Z; simpl; auto.
  now apply iter_shr_1_nonneg.
Qed.

Lemma round_nearest_even_nonneg (m : Z) (l : location) :
  (0 <= m)%Z -> (0 <= round_nearest_even m l)%Z.
Proof.
  intros H. destruct l as [|[]]; simpl; try lia.
  destruct (Z.even m); lia.
Qed.

Lemma binary_round_aux_nonneg (m e : Z) (l : location) :
  (0 <= m)%Z -> nonneg_float (binary_round_aux 53 1024 false m e l) = true.
Proof.
  intros H. unfold binary_round_aux.
  pose proof (shr_fexp_nonneg m e l H) as H1.
  destruct (shr_fexp 53 1024 m e l) as [mrs' e'] eqn:E1. cbn [fst] in H1.
  pose proof (shr_fexp_nonneg
                (round_nearest_even (shr_m mrs') (loc_of_shr_record mrs')) e'
                loc_Exact (round_nearest_even_nonneg _ _ H1)) as H2.
  destruct (shr_fexp 53 1024 _ e' loc_Exact) as [mrs'' e''] eqn:E2.
  cbn [fst] in H2.
  destruct (shr_m mrs'') as [|p|p]; try reflexivity; [|lia].
  now destruct (e'' <=? 1024 - 53)%Z.
Qed.

Lemma float_of_Z_nonneg (z : Z) :
  (0 <= z)%Z -> nonneg_float (float_of_Z z) = true.
Proof.
  intros H. destruct z as [|p|p]; [reflexivity| |lia].
  unfold float_of_Z, binary_normalize, binary_round.
  destruct (shl_align p 0 (fexp 53 1024 (Z.pos (digits2_pos p) + 0)))
    as [mz ez].
  apply binary_round_aux_nonneg. lia.
Qed.

Lemma nonneg_float_not_nan (x : float) :
  nonneg_float x = true -> is_nan x = false.
Proof. now destruct x. Qed.

Lemma nonneg_float_not_below_zero (x : float) :
  nonneg_float x = true -> float_lt x (S754_zero false) = false.
Proof. destruct x as [s|[]| |[] m e]; try discriminate; reflexivity. Qed.

(** ** Facts about stripped strings *)

Lemma strip_stripped (s : str) : stripped (strip s) = true.
Proof.
  destruct (strip_spec s) as (l & r & _ & _ & _ & H1 & H2).
  unfold stripped. now rewrite H1, H2.
Qed.

Lemma strip_forallb (p : ascii -> bool) (s : str) :
  forallb p s = true -> forallb p (strip s) = true.
Proof.
  destruct (strip_spec s) as (l & r & E & _). intros H.
  rewrite E, !forallb_app in H.
  apply andb_prop in H as [_ H]. now apply andb_prop in H as [H _].
Qed.

(** ** More about [parse_deal] *)

Lemma re_search_extremal (t g1 g2 g3 : str) :
  re_search t = Some (g1, g2, g3) ->
  exists pre mid tail,
    t = pre ++ shaped g1 g2 mid g3 tail /\ groups_ok g1 g2 mid g3 /\
    whole_groups mid g3 tail /\
    leftmost_longest pre g1 (py " to " ++ g2 ++ mid ++ py "$" ++ g3 ++ tail).
Proof.
  intros H.
  apply re_search_leftmost in H as (pre & s' & -> & Hm & Hleft).
  apply re_match_extremal in Hm
    as (mid & tail & -> & Hg & Hmax & Htail & Hfirst & Hlong).
  exists pre, mid, tail.
  split; [reflexivity|]. split; [exact Hg|].
  split; [unfold whole_groups; auto|]. split.
  - intros p1 p2 g1' g2' mid' g3' tail' E Hp Hg' E'.
    apply (re_match_complete g1' g2' mid' g3' tail' Hg').
    rewrite <- E'. exact (Hleft p1 p2 E Hp).
  - exact Hlong.
Qed.

Lemma price_passes_le (deal : TravelDeal) (prefs : UserPreferences)
  (p m : float) :
  price deal = Some p -> max_price prefs = Some m ->
  is_nan p = false -> float_lt (S754_zero false) m = true ->
  (price_passes deal prefs = true <-> float_le p m = true).
Proof.
  intros Ep Em Hp Hm. unfold price_passes, price_rejected.
  rewrite Ep, Em. simpl.
  assert (Hmn : is_nan m = false) by (destruct m; auto; discriminate).
  assert (Hmt : float_truthy m = true) by (destruct m; auto; discriminate).
  rewrite Hmt, (float_gt_le p m Hp Hmn). simpl.
  destruct (float_truthy p) eqn:Ht; simpl.
  - rewrite negb_involutive. tauto.
  - split; [intros _|reflexivity].
    destruct p; try discriminate.
    destruct m as [| [] | | [] ]; auto; discriminate.
Qed.

Section ParseDealMore.

Variable float_other : str -> result float.

Lemma parse_deal_cases (t l : str) :
  (exists g1 g2 g3,
     re_search t = Some (g1, g2, g3) /\
     parse_deal float_other t l = ret (Some (deal_of t l g1 g2 g3))) \/
  (re_search t = None /\ parse_deal float_other t l = ret None).
Proof.
  destruct (re_search t) as [[[g1 g2] g3]|] eqn:E.
  - left. exists g1, g2, g3. split; [reflexivity|].
    now apply parse_deal_match.
  - right. split; [reflexivity|]. now apply parse_deal_no_match.
Qed.

Lemma parse_deal_some_groups (t l : str) (deal : TravelDeal) :
  parse_deal float_other t l = ret (Some deal) ->
  exists g1 g2 g3,
    re_search t = Some (g1, g2, g3) /\ deal = deal_of t l g1 g2 g3.
Proof.
  intros H.
  destruct (parse_deal_cases t l) as [(g1 & g2 & g3 & E & Hp)|[_ Hp]];
    rewrite Hp in H; [|discriminate].
  injection H as <-. now exists g1, g2, g3.
Qed.

Lemma deal_of_price_nonneg (t l g1 g2 g3 : str) :
  forallb is_digit g3 = true ->
  nonneg_float (float_of_Z (decimal g3)) = true.
Proof. intros H. now apply float_of_Z_nonneg, decimal_nonneg. Qed.

(** X1.  A title parses exactly when the pattern occurs in it: a non-empty run
    of letters and white space, [" to "], a non-empty run of letters,
    commas and white space, any characters but a line feed, a dollar sign
    and a digit. *)
Theorem parse_deal_matches_iff (t l : str) :
  ((exists deal, parse_deal float_other t l = ret (Some deal)) <->
   title_matches t) /\
  (parse_deal float_other t l = ret None <-> ~ title_matches t).
Proof.
  destruct (parse_deal_cases t l) as [(g1 & g2 & g3 & E & Hp)|[E Hp]];
    rewrite Hp.
  - pose proof (re_search_sound t _ E) as Hm. split; split.
    + intros _. exact Hm.
    + intros _. eexists. reflexivity.
    + discriminate.
    + intros Hn. now destruct (Hn Hm).
  - assert (Hn : ~ title_matches t).
    { intros Hm. now apply (re_search_complete t Hm). }
    split; split.
    + intros [deal H]. discriminate.
    + intros Hm. now destruct (Hn Hm).
    + intros _. exact Hn.
    + reflexivity.
Qed.

(** X2.  In the deal of a parsed title the destination is the whole run of
    destination characters after [" to "], the price is read after the
    first dollar sign that a digit follows, and it is the whole run of
    digits there. *)
Theorem parse_deal_whole_groups (t l : str) (deal : TravelDeal) :
  parse_deal float_other t l = ret (Some deal) ->
  exists pre g1 g2 mid g3 tail,
    t = pre ++ shaped g1 g2 mid g3 tail /\ groups_ok g1 g2 mid g3 /\
    deal = deal_of t l g1 g2 g3 /\
    whole_groups mid g3 tail.
Proof.
  intros H. apply parse_deal_some_groups in H as (g1 & g2 & g3 & E & ->).
  apply re_search_extremal in E as (pre & mid & tail & E & Hg & Hw & _).
  now exists pre, g1, g2, mid, g3, tail.
Qed.

(** X3.  The deal of a parsed title comes from the leftmost place where the
    pattern matches, and its origin is the longest first group a match
    from that place can have. *)
Theorem parse_deal_leftmost_longest (t l : str) (deal : TravelDeal) :
  parse_deal float_other t l = ret (Some deal) ->
  exists pre g1 g2 mid g3 tail,
    t = pre ++ shaped g1 g2 mid g3 tail /\ groups_ok g1 g2 mid g3 /\
    deal = deal_of t l g1 g2 g3 /\
    leftmost_longest pre g1 (py " to " ++ g2 ++ mid ++ py "$" ++ g3 ++ tail).
Proof.
  intros H. apply parse_deal_some_groups in H as (g1 & g2 & g3 & E & ->).
  apply re_search_extremal in E as (pre & mid & tail & E & Hg & _ & Hl).
  now exists pre, g1, g2, mid, g3, tail.
Qed.

(** X4.  Every deal [parse_deal] returns carries the title and the link it was
    given and the currency ["USD"]; its price is set, is a number and is
    not negative; its departure and its destination are set, have no white
    space at either end, and consist of letters and white space (and, for
    the destination, commas). *)
Theorem parse_deal_fields (t l : str) (deal : TravelDeal) :
  parse_deal float_other t l = ret (Some deal) ->
  title deal = t /\ link deal = l /\ currency deal = Some (py "USD") /\
  (exists p, price deal = Some p /\ is_nan p = false /\
             float_lt p (S754_zero false) = false) /\
  (exists dep, departure deal = Some dep /\ stripped dep = true /\
               forallb origin_char dep = true) /\
  (exists dest, destination deal = Some dest /\ stripped dest = true /\
                forallb destination_char dest = true).
Proof.
  intros H. apply parse_deal_some_groups in H as (g1 & g2 & g3 & E & ->).
  apply re_search_inv in E
    as (pre & mid & tail & _ & (_ & H1) & (_ & H2) & _ & (_ & H3)).
  pose proof (deal_of_price_nonneg t l g1 g2 g3 H3) as Hp.
  repeat split.
  - exists (float_of_Z (decimal g3)). split; [reflexivity|].
    split; [now apply nonneg_float_not_nan
           |now apply nonneg_float_not_below_zero].
  - exists (strip g1). split; [reflexivity|].
    split; [apply strip_stripped|now apply strip_forallb].
  - exists (strip g2). split; [reflexivity|].
    split; [apply strip_stripped|now apply strip_forallb].
Qed.

(** X6.  For a deal that [parse_deal] returned and a positive [max_price], the
    price predicate of the filter is exactly [price <= max_price]: the
    price of such a deal is never a NaN. *)
Theorem parsed_price_predicate (t l : str) (deal : TravelDeal)
  (prefs : UserPreferences) (m : float) :
  parse_deal float_other t l = ret (Some deal) ->
  max_price prefs = Some m ->
  float_lt (S754_zero false) m = true ->
  exists p, price deal = Some p /\
            (price_passes deal prefs = true <-> float_le p m = true).
Proof.
  intros H Em Hm. apply parse_deal_some_groups in H as (g1 & g2 & g3 & E & ->).
  apply re_search_inv in E as (pre & mid & tail & _ & _ & _ & _ & (_ & H3)).
  exists (float_of_Z (decimal g3)). split; [reflexivity|].
  apply price_passes_le; auto.
  now apply nonneg_float_not_nan, (deal_of_price_nonneg t l g1 g2 g3).
Qed.

End ParseDealMore.

(** X5.  The [try] block of [parse_deal] never raises, whatever [float] does on
    strings that are not runs of digits: the third group is always a run
    of digits.  So [parse_deal] does not depend on that behaviour. *)
Theorem parse_deal_try_never_raises
  (float_other float_other' : str -> result float) (t l : str) :
  (exists r, parse_deal_try float_other t l = ret r /\
             parse_deal float_other t l = ret r) /\
  parse_deal float_other t l = parse_deal float_other' t l.
Proof.
  split.
  - destruct (re_search t) as [[[g1 g2] g3]|] eqn:E.
    + exists (Some (deal_of t l g1 g2 g3)).
      split; [now apply parse_deal_try_match|now apply parse_deal_match].
    + exists None.
      split; [now apply parse_deal_try_no_match|now apply parse_deal_no_match].
  - destruct (re_search t) as [[[g1 g2] g3]|] eqn:E.
    + now rewrite !(parse_deal_match _ t l g1 g2 g3 E).
    + now rewrite !(parse_deal_no_match _ t l E).
Qed.

(** ** More about [filter_deals] *)

Lemma filter_idempotent (A : Type) (f : A -> bool) (l : list A) :
  filter f (filter f l) = filter f l.
Proof.
  induction l as [|a l IH]; simpl; [reflexivity|].
  destruct (f a) eqn:E; simpl; [rewrite E, IH|]; auto.
Qed.

Lemma filter_shorter (A : Type) (f : A -> bool) (l : list A) :
  List.length (filter f l) <= List.length l.
Proof.
  induction l as [|a l IH]; simpl; [lia|]. destruct (f a); simpl; lia.
Qed.

Lemma passes_split (prefs : UserPreferences) (d : TravelDeal) :
  passes prefs d = true <->
  departure_passes d prefs = true /\ destination_passes d prefs = true /\
  price_passes d prefs = true.
Proof. unfold passes. rewrite !andb_true_iff. tauto. Qed.

(** X7.  [filter_deals] returns, in the order of the input, exactly the deals
    that pass the three predicates; it never adds a deal and never returns
    more deals than it was given. *)
Theorem filter_deals_membership
  (deals : list TravelDeal) (prefs : UserPreferences) :
  filter_deals deals prefs = filter (passes prefs) deals /\
  (forall d,
     In d (filter_deals deals prefs) <->
     In d deals /\ departure_passes d prefs = true /\
     destination_passes d prefs = true /\ price_passes d prefs = true) /\
  List.length (filter_deals deals prefs) <= List.length deals.
Proof.
  rewrite filter_deals_spec. split; [reflexivity|]. split.
  - intros d. rewrite filter_In, passes_split. tauto.
  - apply filter_shorter.
Qed.

(** X8.  Filtering two lists joined is joining the two lists filtered: the
    decision on a deal does not depend on the other deals. *)
Theorem filter_deals_app
  (deals1 deals2 : list TravelDeal) (prefs : UserPreferences) :
  filter_deals (deals1 ++ deals2) prefs
  = filter_deals deals1 prefs ++ filter_deals deals2 prefs.
Proof. rewrite !filter_deals_spec. apply filter_app. Qed.

(** X9.  Filtering a filtered list again with the same preferences changes
    nothing. *)
Theorem filter_deals_idempotent
  (deals : list TravelDeal) (prefs : UserPreferences) :
  filter_deals (filter_deals deals prefs) prefs = filter_deals deals prefs.
Proof. rewrite !filter_deals_spec. apply filter_idempotent. Qed.

(** X10.  An empty list of airports lets through only the deals whose departure
    is absent or empty, and an empty list of keywords only those whose
    destination is absent or empty: an empty list is not "no
    restriction". *)
Theorem empty_preference_lists (prefs : UserPreferences) :
  (departure_airports prefs = [] ->
   forall deal,
     departure_passes deal prefs = negb (str_truthy (departure deal))) /\
  (destination_keywords prefs = [] ->
   forall deal,
     destination_passes deal prefs = negb (str_truthy (destination deal))).
Proof.
  split; intros E deal.
  - unfold departure_passes, departure_rejected. rewrite E.
    destruct (departure deal) as [[|c d]|]; reflexivity.
  - unfold destination_passes, destination_rejected. rewrite E.
    destruct (destination deal) as [[|c d]|]; reflexivity.
Qed.

(** X11.  When the empty string is among the keywords, every deal passes the
    destination predicate: the empty string occurs in every string. *)
Theorem empty_keyword_matches_all
  (prefs : UserPreferences) (deal : TravelDeal) :
  In [] (destination_keywords prefs) ->
  destination_passes deal prefs = true.
Proof.
  intros H. unfold destination_passes, destination_rejected.
  destruct (destination deal) as [[|c d]|]; try reflexivity.
  cbn [str_truthy andb]. rewrite negb_involutive. apply existsb_exists.
  exists []. split; [assumption|]. cbn [lower map].
  destruct (lower (c :: d)); reflexivity.
Qed.

(** X12.  More airports and more keywords, with the same [max_price], never
    lose a deal: what passed still passes, so the result can only grow. *)
Theorem filter_deals_monotone
  (prefs prefs' : UserPreferences) (deals : list TravelDeal) :
  incl (departure_airports prefs) (departure_airports prefs') ->
  incl (destination_keywords prefs) (destination_keywords prefs') ->
  max_price prefs = max_price prefs' ->
  (forall d, passes prefs d = true -> passes prefs' d = true) /\
  incl (filter_deals deals prefs) (filter_deals deals prefs').
Proof.
  intros Ha Hk Hm.
  assert (H : forall d, passes prefs d = true -> passes prefs' d = true).
  { intros d. rewrite !passes_split. intros (H1 & H2 & H3). repeat split.
    - unfold departure_passes, departure_rejected in *.
      destruct (departure d) as [[|c dep]|]; try reflexivity.
      cbn [str_truthy andb] in *. rewrite negb_involutive in *.
      apply existsb_str_eqb. apply Ha. now apply existsb_str_eqb.
    - unfold destination_passes, destination_rejected in *.
      destruct (destination d) as [[|c dest]|]; try reflexivity.
      cbn [str_truthy andb] in *. rewrite negb_involutive in *.
      apply existsb_exists in H2 as (kw & Hin & Hc).
      apply existsb_exists. exists kw. split; [now apply Hk|assumption].
    - unfold price_passes, price_rejected in *. now rewrite <- Hm. }
  split; [exact H|].
  intros d. rewrite !filter_deals_spec, !filter_In. intros [Hin Hp].
  split; [assumption|now apply H].
Qed.

(** X13.  The filter never looks at a currency, nor at the title or the link:
    changing the currency of the preferences changes nothing, and two
    deals with the same departure, destination and price are kept or
    dropped together. *)
Theorem filter_ignores_currency (prefs : UserPreferences) :
  (forall c deals,
     filter_deals deals (with_currency c prefs) = filter_deals deals prefs) /\
  (forall d d',
     departure d = departure d' -> destination d = destination d' ->
     price d = price d' ->
     passes prefs d = passes prefs d').
Proof.
  split.
  - intros c deals. rewrite !filter_deals_spec. reflexivity.
  - intros d d' H1 H2 H3.
    unfold passes, departure_passes, destination_passes, price_passes,
      departure_rejected, destination_rejected, price_rejected.
    now rewrite H1, H2, H3.
Qed.

(** ** More about the scrapers and [find_deals] *)

Lemma departure_passes_inv (d : TravelDeal) (prefs : UserPreferences)
  (dep : str) :
  departure d = Some dep -> departure_passes d prefs = true ->
  dep = [] \/ In dep (departure_airports prefs).
Proof.
  unfold departure_passes, departure_rejected. intros ->.
  destruct dep as [|c dep]; [now left|]. cbn [str_truthy andb].
  rewrite negb_involutive. intros H. right. now apply existsb_str_eqb.
Qed.

Lemma destination_passes_inv (d : TravelDeal) (prefs : UserPreferences)
  (dest : str) :
  destination d = Some dest -> destination_passes d prefs = true ->
  dest = [] \/
  exists kw, In kw (destination_keywords prefs) /\
             occurs_ignoring_case kw dest.
Proof.
  unfold destination_passes, destination_rejected. intros ->.
  destruct dest as [|c dest]; [now left|]. cbn [str_truthy andb].
  rewrite negb_involutive. intros H. right.
  apply existsb_exists in H as (kw & Hin & H). exists kw.
  split; [assumption|now apply contains_lower_iff].
Qed.

Section ScrapersMore.

Variable float_other : str -> result float.
Variable feedparser_parse : list str -> str -> result (list Entry).

(** The loop of a scraper: all the entries contribute, or one of them lacks
    an attribute and the loop raises. *)
Lemma collect_deals_spec (entries : list Entry) (deals : list TravelDeal) :
  collect_deals float_other entries deals
  = if forallb has_attrs entries
    then ret (deals ++ flat_map (entry_contribution float_other) entries)
    else raise AttributeError.
Proof.
  revert deals; induction entries as [|[[t|] [l|]] entries IH]; intros deals;
    try reflexivity.
  - cbn [collect_deals]. now rewrite app_nil_r.
  - rewrite collect_deals_entry, IH. cbn [forallb has_attrs entry_title
      entry_link andb flat_map entry_contribution].
    destruct (forallb has_attrs entries); [|reflexivity].
    now rewrite <- app_assoc.
Qed.

Lemma entry_contribution_parsed (e : Entry) :
  Forall (is_parsed float_other) (entry_contribution float_other e).
Proof.
  unfold entry_contribution, entry_deals.
  destruct (entry_title e) as [t|], (entry_link e) as [l|]; try constructor.
  destruct (parse_deal float_other t l) as [x|[d|]] eqn:E; constructor;
    [|constructor].
  now exists t, l.
Qed.

Lemma scrape_try_parsed (url : str) (w : World) (deals : list TravelDeal) :
  scrape_try float_other feedparser_parse url w = ret deals ->
  Forall (is_parsed float_other) deals.
Proof.
  unfold scrape_try.
  destruct (feedparser_parse (fetched w) url) as [x|entries];
    [discriminate|]. cbn [bind]. rewrite collect_deals_spec.
  destruct (forallb has_attrs entries); [|discriminate].
  intros H. injection H as <-. cbn [app].
  apply Forall_flat_map, Forall_forall. intros e _.
  apply entry_contribution_parsed.
Qed.

(** The three ways a call of a scraper can go. *)
Lemma scrape_cases (src : Source) (now : float) (w : World) :
  (fresh src now w = true /\
   scrape float_other feedparser_parse src now w
   = (data (source_entry src (cache w)), w)) \/
  (fresh src now w = false /\
   exists e,
     scrape_try float_other feedparser_parse (source_url src) w = raise e /\
     scrape float_other feedparser_parse src now w
     = ([], record_fetch (source_url src) w)) \/
  (fresh src now w = false /\
   exists deals,
     scrape_try float_other feedparser_parse (source_url src) w = ret deals /\
     scrape float_other feedparser_parse src now w
     = (deals, refreshed src now deals w)).
Proof.
  destruct (fresh src now w) eqn:Hf.
  - left. split; [reflexivity|]. now apply scrape_hit.
  - right.
    destruct (scrape_try float_other feedparser_parse (source_url src) w)
      as [e|deals] eqn:E.
    + left. split; [reflexivity|]. exists e. split; [reflexivity|].
      now apply (scrape_failure float_other feedparser_parse src now w e).
    + right. split; [reflexivity|]. exists deals. split; [reflexivity|].
      now apply scrape_success.
Qed.

Lemma scrape_other_entry (src : Source) (now : float) (w : World) :
  source_entry (other_source src)
    (cache (snd (scrape float_other feedparser_parse src now w)))
  = source_entry (other_source src) (cache w).
Proof.
  destruct (scrape_cases src now w)
    as [[_ E]|[[_ (e & _ & E)]|[_ (deals & _ & E)]]]; rewrite E;
    try reflexivity.
  now destruct src.
Qed.

Lemma scrape_fetched (src : Source) (now : float) (w : World) :
  fetched (snd (scrape float_other feedparser_parse src now w))
  = fetched w ++ (if fresh src now w then [] else [source_url src]).
Proof.
  destruct (scrape_cases src now w)
    as [[Hf E]|[[Hf (e & _ & E)]|[Hf (deals & _ & E)]]]; rewrite E, Hf;
    cbn [snd fetched record_fetch refreshed]; auto using app_nil_r.
Qed.

Lemma scrape_parsed (src : Source) (now : float) (w : World) :
  cache_parsed float_other (cache w) ->
  cache_parsed float_other
    (cache (snd (scrape float_other feedparser_parse src now w))) /\
  Forall (is_parsed float_other)
    (fst (scrape float_other feedparser_parse src now w)).
Proof.
  intros [H1 H2].
  destruct (scrape_cases src now w)
    as [[_ E]|[[_ (e & _ & E)]|[_ (deals & Ht & E)]]]; rewrite E;
    cbn [fst snd].
  - split; [now split|]. now destruct src.
  - split; [now split|constructor].
  - apply scrape_try_parsed in Ht. split; [|assumption].
    destruct src; split; assumption.
Qed.

Lemma all_deals_unfold (t1 t2 : float) (w : World) :
  all_deals float_other feedparser_parse t1 t2 w
  = (fst (scrape float_other feedparser_parse SecretFlying t1 w) ++
     fst (scrape float_other feedparser_parse TheFlightDeal t2
            (snd (scrape float_other feedparser_parse SecretFlying t1 w))),
     snd (scrape float_other feedparser_parse TheFlightDeal t2
            (snd (scrape float_other feedparser_parse SecretFlying t1 w)))).
Proof.
  unfold all_deals. cbn [scrape].
  destruct (scrape_secret_flying float_other feedparser_parse t1 w)
    as [sf w1]. cbn [fst snd].
  now destruct (scrape_the_flight_deal float_other feedparser_parse t2 w1).
Qed.

Lemma find_deals_unfold (prefs : UserPreferences) (t1 t2 : float)
  (w : World) :
  find_deals float_other feedparser_parse prefs t1 t2 w
  = (filter_deals (fst (all_deals float_other feedparser_parse t1 t2 w)) prefs,
     snd (all_deals float_other feedparser_parse t1 t2 w)).
Proof.
  unfold find_deals.
  destruct (all_deals float_other feedparser_parse t1 t2 w) as [[|d deals] w'];
    reflexivity.
Qed.

End ScrapersMore.

Section ScraperProperties.

Variable float_other : str -> result float.
Variable feedparser_parse : list str -> str -> result (list Entry).

(** X14.  What a refresh does, given what the feed gives.  When the entry of a
    source is stale the scraper fetches once; if the fetch raises, or some
    entry lacks a title or a link, the call returns the empty list and the
    cache is kept, whatever the other entries are; otherwise the call
    returns the deals of all the entries that parse, in order, and they
    replace the cached data with the time stamp [now]. *)
Theorem refresh_outcome (src : Source) (now : float) (w : World) :
  fresh src now w = false ->
  scrape float_other feedparser_parse src now w
  = match feedparser_parse (fetched w) (source_url src) with
    | inl _ => ([], record_fetch (source_url src) w)
    | inr entries =>
        if forallb has_attrs entries
        then (flat_map (entry_contribution float_other) entries,
              refreshed src now
                (flat_map (entry_contribution float_other) entries) w)
        else ([], record_fetch (source_url src) w)
    end.
Proof.
  intros Hf.
  destruct (scrape_cases float_other feedparser_parse src now w)
    as [[Hf' _]|[[_ (e & Ht & E)]|[_ (deals & Ht & E)]]];
    [congruence| |]; rewrite E; unfold scrape_try in Ht;
    destruct (feedparser_parse (fetched w) (source_url src)) as [x|entries];
    cbn [bind] in Ht; try reflexivity; try discriminate;
    rewrite collect_deals_spec in Ht;
    destruct (forallb has_attrs entries); try discriminate; try reflexivity.
  injection Ht as <-. reflexivity.
Qed.

(** X15.  A scraper never touches the entry of the other source, fetches at most
    once and only its own URL, and returns either the empty list or the
    data its entry holds after the call. *)
Theorem scrape_frame (src : Source) (now : float) (w : World) :
  source_entry (other_source src)
    (cache (snd (scrape float_other feedparser_parse src now w)))
  = source_entry (other_source src) (cache w) /\
  fetched (snd (scrape float_other feedparser_parse src now w))
  = fetched w ++ (if fresh src now w then [] else [source_url src]) /\
  (fst (scrape float_other feedparser_parse src now w) = [] \/
   fst (scrape float_other feedparser_parse src now w)
   = data (source_entry src
             (cache (snd (scrape float_other feedparser_parse src now w))))).
Proof.
  split; [apply scrape_other_entry|]. split; [apply scrape_fetched|].
  destruct (scrape_cases float_other feedparser_parse src now w)
    as [[_ E]|[[_ (e & _ & E)]|[_ (deals & _ & E)]]]; rewrite E;
    cbn [fst snd]; auto.
  right. now destruct src.
Qed.

(** X16.  The cache only ever holds deals that [parse_deal] returned: the empty
    cache does, and a call of a scraper keeps it so and returns only such
    deals. *)
Theorem scrape_keeps_parsed_cache (src : Source) (now : float) (w : World) :
  cache_parsed float_other cache_init /\
  (cache_parsed float_other (cache w) ->
   cache_parsed float_other
     (cache (snd (scrape float_other feedparser_parse src now w))) /\
   Forall (is_parsed float_other)
     (fst (scrape float_other feedparser_parse src now w))).
Proof.
  split; [split; constructor|]. apply scrape_parsed.
Qed.

(** X18.  [find_deals] is [filter_deals] applied to [all_deals], also when
    [all_deals] is empty; so its result is the filtered list of the first
    source followed by the filtered list of the second, and the world it
    leaves does not depend on the preferences. *)
Theorem find_deals_is_filtered_all_deals
  (prefs : UserPreferences) (t1 t2 : float) (w : World) :
  find_deals float_other feedparser_parse prefs t1 t2 w
  = (filter_deals (fst (all_deals float_other feedparser_parse t1 t2 w)) prefs,
     snd (all_deals float_other feedparser_parse t1 t2 w)) /\
  fst (find_deals float_other feedparser_parse prefs t1 t2 w)
  = filter_deals
      (fst (scrape_secret_flying float_other feedparser_parse t1 w)) prefs ++
    filter_deals
      (fst (scrape_the_flight_deal float_other feedparser_parse t2
              (snd (scrape_secret_flying float_other feedparser_parse t1 w))))
      prefs.
Proof.
  rewrite find_deals_unfold. split; [reflexivity|].
  rewrite all_deals_unfold. cbn [fst scrape].
  rewrite !filter_deals_spec. apply filter_app.
Qed.

(** X19.  When both entries are within the TTL, [find_deals] fetches nothing,
    leaves the world as it is, and returns the cached deals of the two
    sources, filtered. *)
Theorem find_deals_fresh_cache
  (prefs : UserPreferences) (t1 t2 : float) (w : World) :
  fresh SecretFlying t1 w = true ->
  fresh TheFlightDeal t2 w = true ->
  find_deals float_other feedparser_parse prefs t1 t2 w
  = (filter_deals (data (secret_flying (cache w)) ++
                   data (the_flight_deal (cache w))) prefs, w).
Proof.
  intros H1 H2. rewrite find_deals_unfold, all_deals_unfold.
  rewrite (scrape_hit float_other feedparser_parse SecretFlying t1 w H1).
  cbn [fst snd].
  rewrite (scrape_hit float_other feedparser_parse TheFlightDeal t2 w H2).
  reflexivity.
Qed.

(** X20.  When both entries are stale and both scrapers fail, [find_deals]
    returns the empty list, the cache is kept, and both URLs were
    fetched. *)
Theorem find_deals_both_fail
  (prefs : UserPreferences) (t1 t2 : float) (w : World) (e1 e2 : exn) :
  fresh SecretFlying t1 w = false ->
  fresh TheFlightDeal t2 w = false ->
  scrape_try float_other feedparser_parse secret_flying_url w = raise e1 ->
  scrape_try float_other feedparser_parse the_flight_deal_url
             (record_fetch secret_flying_url w) = raise e2 ->
  find_deals float_other feedparser_parse prefs t1 t2 w
  = ([], {| cache := cache w;
            fetched :=
              fetched w ++ [secret_flying_url; the_flight_deal_url] |}).
Proof.
  intros H1 H2 E1 E2. rewrite find_deals_unfold, all_deals_unfold.
  rewrite (scrape_failure float_other feedparser_parse SecretFlying t1 w e1
             H1 E1).
  cbn [fst snd source_url].
  rewrite (scrape_failure float_other feedparser_parse TheFlightDeal t2
             (record_fetch secret_flying_url w) e2 H2 E2).
  cbn [fst snd]. unfold record_fetch. cbn [cache fetched app].
  rewrite <- app_assoc. reflexivity.
Qed.

(** X21.  [find_deals] fetches each stale source once and no fresh source, first
    Secret Flying and then The Flight Deal; whether the second is fetched
    does not depend on what the first scraper did. *)
Theorem find_deals_fetch_log
  (prefs : UserPreferences) (t1 t2 : float) (w : World) :
  fetched (snd (find_deals float_other feedparser_parse prefs t1 t2 w))
  = fetched w ++
    (if fresh SecretFlying t1 w then [] else [secret_flying_url]) ++
    (if fresh TheFlightDeal t2 w then [] else [the_flight_deal_url]).
Proof.
  rewrite find_deals_unfold, all_deals_unfold. cbn [snd].
  rewrite !scrape_fetched. cbn [source_url].
  replace (fresh TheFlightDeal t2
             (snd (scrape float_other feedparser_parse SecretFlying t1 w)))
    with (fresh TheFlightDeal t2 w).
  - now rewrite <- app_assoc.
  - unfold fresh.
    now rewrite (scrape_other_entry float_other feedparser_parse
                   SecretFlying t1 w : source_entry TheFlightDeal _ = _).
Qed.

(** X23.  From a cache of parsed deals, every deal [find_deals] returns was
    returned by [parse_deal]; its departure is empty or one of the
    airports; its destination is empty or has one of the keywords in it up
    to case; and when [max_price] is positive its price is at most
    [max_price]. *)
Theorem find_deals_postcondition
  (prefs : UserPreferences) (t1 t2 : float) (w : World) (d : TravelDeal) :
  cache_parsed float_other (cache w) ->
  In d (fst (find_deals float_other feedparser_parse prefs t1 t2 w)) ->
  is_parsed float_other d /\
  (exists dep, departure d = Some dep /\
               (dep = [] \/ In dep (departure_airports prefs))) /\
  (exists dest, destination d = Some dest /\
                (dest = [] \/
                 exists kw, In kw (destination_keywords prefs) /\
                            occurs_ignoring_case kw dest)) /\
  (forall m, max_price prefs = Some m ->
             float_lt (S754_zero false) m = true ->
             exists p, price d = Some p /\ float_le p m = true).
Proof.
  intros Hc Hin. rewrite find_deals_unfold, all_deals_unfold in Hin.
  cbn [fst] in Hin. rewrite filter_deals_spec in Hin.
  apply filter_In in Hin as [Hin Hp].
  apply passes_split in Hp as (P1 & P2 & P3).
  destruct (scrape_parsed float_other feedparser_parse SecretFlying t1 w Hc)
    as [Hc1 F1].
  destruct (scrape_parsed float_other feedparser_parse TheFlightDeal t2 _ Hc1)
    as [_ F2].
  assert (Hd : is_parsed float_other d).
  { apply in_app_or in Hin as [Hin|Hin].
    - exact (proj1 (Forall_forall _ _) F1 d Hin).
    - exact (proj1 (Forall_forall _ _) F2 d Hin). }
  split; [exact Hd|]. destruct Hd as (t & l & Hd).
  pose proof (parse_deal_some_groups float_other t l d Hd)
    as (g1 & g2 & g3 & E & ->).
  apply re_search_inv in E as (pre & mid & tail & _ & _ & _ & _ & (_ & H3)).
  split; [|split].
  - exists (strip g1). split; [reflexivity|].
    now apply (departure_passes_inv (deal_of t l g1 g2 g3) prefs).
  - exists (strip g2). split; [reflexivity|].
    now apply (destination_passes_inv (deal_of t l g1 g2 g3) prefs).
  - intros m Em Hm. exists (float_of_Z (decimal g3)). split; [reflexivity|].
    apply (price_passes_le (deal_of t l g1 g2 g3) prefs
             (float_of_Z (decimal g3)) m eq_refl Em); auto.
    now apply nonneg_float_not_nan, (deal_of_price_nonneg t l g1 g2 g3).
Qed.

(** X17.  A failed refresh is tried again by the next call: the entry is still
    stale, so a second call at the same time fetches the same URL once
    more. *)
Theorem failed_refresh_is_retried
  (src : Source) (now : float) (w : World) (e : exn) :
  fresh src now w = false ->
  scrape_try float_other feedparser_parse (source_url src) w = raise e ->
  fresh src now (snd (scrape float_other feedparser_parse src now w)) = false /\
  fetched
    (snd (scrape float_other feedparser_parse src now
            (snd (scrape float_other feedparser_parse src now w))))
  = fetched w ++ [source_url src; source_url src].
Proof.
  intros Hf E.
  rewrite (scrape_failure float_other feedparser_parse src now w e Hf E).
  cbn [snd].
  assert (Hf' : fresh src now (record_fetch (source_url src) w) = false)
    by exact Hf.
  split; [exact Hf'|].
  rewrite scrape_fetched, Hf'. cbn [record_fetch fetched].
  now rewrite <- app_assoc.
Qed.

(** X22.  After a request that refreshed both sources, a later request made
    within the TTL of both refreshes, with any preferences, fetches
    nothing, leaves the world as it is and is answered from the same
    deals. *)
Theorem find_deals_repeat
  (prefs prefs' : UserPreferences) (t1 t2 t3 t4 : float) (w : World)
  (d1 d2 : list TravelDeal) :
  fresh SecretFlying t1 w = false ->
  fresh TheFlightDeal t2 w = false ->
  scrape_try float_other feedparser_parse secret_flying_url w = ret d1 ->
  scrape_try float_other feedparser_parse the_flight_deal_url
             (refreshed SecretFlying t1 d1 w) = ret d2 ->
  float_lt (float_sub t3 t1) CACHE_TTL = true ->
  float_lt (float_sub t4 t2) CACHE_TTL = true ->
  fst (find_deals float_other feedparser_parse prefs t1 t2 w)
  = filter_deals (d1 ++ d2) prefs /\
  find_deals float_other feedparser_parse prefs' t3 t4
    (snd (find_deals float_other feedparser_parse prefs t1 t2 w))
  = (filter_deals (d1 ++ d2) prefs',
     snd (find_deals float_other feedparser_parse prefs t1 t2 w)).
Proof.
  intros H1 H2 E1 E2 H3 H4.
  assert (E : find_deals float_other feedparser_parse prefs t1 t2 w
              = (filter_deals (d1 ++ d2) prefs,
                 refreshed TheFlightDeal t2 d2
                   (refreshed SecretFlying t1 d1 w))).
  { rewrite find_deals_unfold, all_deals_unfold.
    rewrite (scrape_success float_other feedparser_parse SecretFlying t1 w d1
               H1 E1).
    cbn [fst snd].
    rewrite (scrape_success float_other feedparser_parse TheFlightDeal t2
               (refreshed SecretFlying t1 d1 w) d2 H2 E2).
    reflexivity. }
  rewrite E. cbn [fst snd]. split; [reflexivity|].
  rewrite find_deals_unfold, all_deals_unfold.
  rewrite (scrape_hit float_other feedparser_parse SecretFlying t3
             (refreshed TheFlightDeal t2 d2 (refreshed SecretFlying t1 d1 w))
             H3).
  cbn [fst snd].
  rewrite (scrape_hit float_other feedparser_parse TheFlightDeal t4
             (refreshed TheFlightDeal t2 d2 (refreshed SecretFlying t1 d1 w))
             H4).
  reflexivity.
Qed.

End ScraperProperties.

(** ** Instances *)

Lemma parse_deal_whole_groups_witness :
  parse_deal float_other_rejects sample_title sample_link
  = ret (Some sample_deal) /\
  exists pre g1 g2 mid g3 tail,
    sample_title = pre ++ shaped g1 g2 mid g3 tail /\
    groups_ok g1 g2 mid g3 /\
    sample_deal = deal_of sample_title sample_link g1 g2 g3 /\
    whole_groups mid g3 tail.
Proof.
  split; [reflexivity|].
  apply (parse_deal_whole_groups float_other_rejects sample_title sample_link).
  reflexivity.
Defined.

Lemma parse_deal_leftmost_longest_witness :
  parse_deal float_other_rejects sample_title sample_link
  = ret (Some sample_deal) /\
  exists pre g1 g2 mid g3 tail,
    sample_title = pre ++ shaped g1 g2 mid g3 tail /\
    groups_ok g1 g2 mid g3 /\
    sample_deal = deal_of sample_title sample_link g1 g2 g3 /\
    leftmost_longest pre g1 (py " to " ++ g2 ++ mid ++ py "$" ++ g3 ++ tail).
Proof.
  split; [reflexivity|].
  apply (parse_deal_leftmost_longest float_other_rejects sample_title
           sample_link).
  reflexivity.
Defined.

Lemma parse_deal_fields_witness :
  parse_deal float_other_rejects sample_title sample_link
  = ret (Some sample_deal) /\
  title sample_deal = sample_title /\ link sample_deal = sample_link /\
  currency sample_deal = Some (py "USD") /\
  (exists p, price sample_deal = Some p /\ is_nan p = false /\
             float_lt p (S754_zero false) = false) /\
  (exists dep, departure sample_deal = Some dep /\ stripped dep = true /\
               forallb origin_char dep = true) /\
  (exists dest, destination sample_deal = Some dest /\ stripped dest = true /\
                forallb destination_char dest = true).
Proof.
  split; [reflexivity|].
  apply (parse_deal_fields float_other_rejects sample_title sample_link).
  reflexivity.
Defined.

Lemma parsed_price_predicate_witness :
  parse_deal float_other_rejects sample_title sample_link
  = ret (Some sample_deal) /\
  max_price paris_prefs = Some (float_of_Z 300) /\
  float_lt (S754_zero false) (float_of_Z 300) = true /\
  exists p, price sample_deal = Some p /\
            (price_passes sample_deal paris_prefs = true <->
             float_le p (float_of_Z 300) = true).
Proof.
  split; [reflexivity|]. split; [reflexivity|]. split; [reflexivity|].
  apply (parsed_price_predicate float_other_rejects sample_title sample_link);
    reflexivity.
Defined.

Lemma empty_preference_lists_witness :
  (departure_airports (prefs_of [] [] None) = [] /\
   forall deal,
     departure_passes deal (prefs_of [] [] None)
     = negb (str_truthy (departure deal))) /\
  (destination_keywords (prefs_of [] [] None) = [] /\
   forall deal,
     destination_passes deal (prefs_of [] [] None)
     = negb (str_truthy (destination deal))).
Proof.
  destruct (empty_preference_lists (prefs_of [] [] None)) as [H1 H2].
  split; (split; [reflexivity|]); [apply H1|apply H2]; reflexivity.
Defined.

Lemma empty_keyword_matches_all_witness :
  In [] (destination_keywords (prefs_of [] [[]] None)) /\
  destination_passes nyc_paris (prefs_of [] [[]] None) = true.
Proof.
  split; [left; reflexivity|].
  apply empty_keyword_matches_all. left. reflexivity.
Defined.

Lemma filter_deals_monotone_witness :
  incl (departure_airports (prefs_of [py "JFK"] [py "rome"] None))
       (departure_airports (prefs_of [py "JFK"; py "NYC"]
                                     [py "rome"; py "paris"] None)) /\
  incl (destination_keywords (prefs_of [py "JFK"] [py "rome"] None))
       (destination_keywords (prefs_of [py "JFK"; py "NYC"]
                                       [py "rome"; py "paris"] None)) /\
  max_price (prefs_of [py "JFK"] [py "rome"] None)
  = max_price (prefs_of [py "JFK"; py "NYC"] [py "rome"; py "paris"] None) /\
  (forall d,
     passes (prefs_of [py "JFK"] [py "rome"] None) d = true ->
     passes (prefs_of [py "JFK"; py "NYC"] [py "rome"; py "paris"] None) d
     = true) /\
  incl (filter_deals [nyc_paris] (prefs_of [py "JFK"] [py "rome"] None))
       (filter_deals [nyc_paris]
          (prefs_of [py "JFK"; py "NYC"] [py "rome"; py "paris"] None)).
Proof.
  assert (H1 : incl [py "JFK"] [py "JFK"; py "NYC"])
    by (intros x [<-|[]]; left; reflexivity).
  assert (H2 : incl [py "rome"] [py "rome"; py "paris"])
    by (intros x [<-|[]]; left; reflexivity).
  split; [exact H1|]. split; [exact H2|]. split; [reflexivity|].
  apply (filter_deals_monotone (prefs_of [py "JFK"] [py "rome"] None)
           (prefs_of [py "JFK"; py "NYC"] [py "rome"; py "paris"] None)
           [nyc_paris] H1 H2 eq_refl).
Defined.

Lemma filter_ignores_currency_witness :
  filter_deals [nyc_paris] (with_currency (Some (py "EUR")) paris_prefs)
  = filter_deals [nyc_paris] paris_prefs /\
  (departure nyc_paris = departure (with_title_link [] [] nyc_paris) /\
   destination nyc_paris = destination (with_title_link [] [] nyc_paris) /\
   price nyc_paris = price (with_title_link [] [] nyc_paris) /\
   passes paris_prefs nyc_paris
   = passes paris_prefs (with_title_link [] [] nyc_paris)).
Proof.
  destruct (filter_ignores_currency paris_prefs) as [H1 H2].
  split; [apply H1|]. split; [reflexivity|]. split; [reflexivity|].
  split; [reflexivity|]. apply H2; reflexivity.
Defined.

Lemma refresh_outcome_witness :
  fresh SecretFlying (float_of_Z 2000) (world_of cache_at_1000) = false /\
  scrape float_other_rejects broken_feed SecretFlying (float_of_Z 2000)
         (world_of cache_at_1000)
  = ([], record_fetch secret_flying_url (world_of cache_at_1000)) /\
  scrape float_other_rejects paris_feed SecretFlying (float_of_Z 2000)
         (world_of cache_at_1000)
  = ([nyc_paris],
     refreshed SecretFlying (float_of_Z 2000) [nyc_paris]
               (world_of cache_at_1000)).
Proof.
  split; [reflexivity|]. split.
  - rewrite (refresh_outcome float_other_rejects broken_feed SecretFlying
               (float_of_Z 2000) (world_of cache_at_1000) eq_refl).
    reflexivity.
  - rewrite (refresh_outcome float_other_rejects paris_feed SecretFlying
               (float_of_Z 2000) (world_of cache_at_1000) eq_refl).
    reflexivity.
Defined.

Lemma scrape_keeps_parsed_cache_witness :
  cache_parsed float_other_rejects (cache (world_of cache_init)) /\
  cache_parsed float_other_rejects
    (cache (snd (scrape float_other_rejects paris_feed TheFlightDeal
                   (float_of_Z 1000) (world_of cache_init)))) /\
  Forall (is_parsed float_other_rejects)
    (fst (scrape float_other_rejects paris_feed TheFlightDeal
            (float_of_Z 1000) (world_of cache_init))).
Proof.
  destruct (scrape_keeps_parsed_cache float_other_rejects paris_feed
              TheFlightDeal (float_of_Z 1000) (world_of cache_init))
    as [H0 H].
  split; [exact H0|]. apply H. exact H0.
Defined.

Lemma find_deals_fresh_cache_witness :
  fresh SecretFlying (float_of_Z 1100) (world_of cache_at_1000) = true /\
  fresh TheFlightDeal (float_of_Z 1200) (world_of cache_at_1000) = true /\
  find_deals float_other_rejects feed_down paris_prefs
             (float_of_Z 1100) (float_of_Z 1200) (world_of cache_at_1000)
  = (filter_deals
       (data (secret_flying (cache (world_of cache_at_1000))) ++
        data (the_flight_deal (cache (world_of cache_at_1000))))
       paris_prefs,
     world_of cache_at_1000).
Proof.
  split; [reflexivity|]. split; [reflexivity|].
  apply find_deals_fresh_cache; reflexivity.
Defined.

Lemma find_deals_both_fail_witness :
  fresh SecretFlying (float_of_Z 2000) (world_of cache_at_1000) = false /\
  fresh TheFlightDeal (float_of_Z 2000) (world_of cache_at_1000) = false /\
  scrape_try float_other_rejects feed_down secret_flying_url
             (world_of cache_at_1000) = raise FeedError /\
  scrape_try float_other_rejects feed_down the_flight_deal_url
             (record_fetch secret_flying_url (world_of cache_at_1000))
  = raise FeedError /\
  find_deals float_other_rejects feed_down paris_prefs
             (float_of_Z 2000) (float_of_Z 2000) (world_of cache_at_1000)
  = ([], {| cache := cache (world_of cache_at_1000);
            fetched := fetched (world_of cache_at_1000) ++
                       [secret_flying_url; the_flight_deal_url] |}).
Proof.
  split; [reflexivity|]. split; [reflexivity|]. split; [reflexivity|].
  split; [reflexivity|].
  apply (find_deals_both_fail float_other_rejects feed_down paris_prefs
           (float_of_Z 2000) (float_of_Z 2000) (world_of cache_at_1000)
           FeedError FeedError); reflexivity.
Defined.

Lemma find_deals_postcondition_witness :
  cache_parsed float_other_rejects (cache (world_of cache_init)) /\
  In nyc_paris
     (fst (find_deals float_other_rejects paris_feed paris_prefs
             (float_of_Z 1000) (float_of_Z 1000) (world_of cache_init))) /\
  is_parsed float_other_rejects nyc_paris /\
  (exists dep, departure nyc_paris = Some dep /\
               (dep = [] \/ In dep (departure_airports paris_prefs))) /\
  (exists dest, destination nyc_paris = Some dest /\
                (dest = [] \/
                 exists kw, In kw (destination_keywords paris_prefs) /\
                            occurs_ignoring_case kw dest)) /\
  (forall m, max_price paris_prefs = Some m ->
             float_lt (S754_zero false) m = true ->
             exists p, price nyc_paris = Some p /\ float_le p m = true).
Proof.
  assert (H0 : cache_parsed float_other_rejects (cache (world_of cache_init)))
    by (split; constructor).
  split; [exact H0|]. split; [left; reflexivity|].
  apply (find_deals_postcondition float_other_rejects paris_feed paris_prefs
           (float_of_Z 1000) (float_of_Z 1000) (world_of cache_init)
           nyc_paris H0).
  left. reflexivity.
Defined.

Lemma failed_refresh_is_retried_witness :
  fresh TheFlightDeal (float_of_Z 2000) (world_of cache_at_1000) = false /\
  scrape_try float_other_rejects broken_feed (source_url TheFlightDeal)
             (world_of cache_at_1000) = raise AttributeError /\
  fresh TheFlightDeal (float_of_Z 2000)
        (snd (scrape float_other_rejects broken_feed TheFlightDeal
                (float_of_Z 2000) (world_of cache_at_1000))) = false /\
  fetched
    (snd (scrape float_other_rejects broken_feed TheFlightDeal
            (float_of_Z 2000)
            (snd (scrape float_other_rejects broken_feed TheFlightDeal
                    (float_of_Z 2000) (world_of cache_at_1000)))))
  = fetched (world_of cache_at_1000) ++
    [source_url TheFlightDeal; source_url TheFlightDeal].
Proof.
  split; [reflexivity|]. split; [reflexivity|].
  apply (failed_refresh_is_retried float_other_rejects broken_feed
           TheFlightDeal (float_of_Z 2000) (world_of cache_at_1000)
           AttributeError); reflexivity.
Defined.

Lemma find_deals_repeat_witness :
  fresh SecretFlying (float_of_Z 1000) (world_of cache_init) = false /\
  fresh TheFlightDeal (float_of_Z 1001) (world_of cache_init) = false /\
  scrape_try float_other_rejects paris_feed secret_flying_url
             (world_of cache_init) = ret [nyc_paris] /\
  scrape_try float_other_rejects paris_feed the_flight_deal_url
             (refreshed SecretFlying (float_of_Z 1000) [nyc_paris]
                        (world_of cache_init)) = ret [nyc_paris] /\
  float_lt (float_sub (float_of_Z 1200) (float_of_Z 1000)) CACHE_TTL = true /\
  float_lt (float_sub (float_of_Z 1201) (float_of_Z 1001)) CACHE_TTL = true /\
  fst (find_deals float_other_rejects paris_feed paris_prefs
         (float_of_Z 1000) (float_of_Z 1001) (world_of cache_init))
  = filter_deals ([nyc_paris] ++ [nyc_paris]) paris_prefs /\
  find_deals float_other_rejects paris_feed (prefs_of [] [] None)
    (float_of_Z 1200) (float_of_Z 1201)
    (snd (find_deals float_other_rejects paris_feed paris_prefs
            (float_of_Z 1000) (float_of_Z 1001) (world_of cache_init)))
  = (filter_deals ([nyc_paris] ++ [nyc_paris]) (prefs_of [] [] None),
     snd (find_deals float_other_rejects paris_feed paris_prefs
            (float_of_Z 1000) (float_of_Z 1001) (world_of cache_init))).
Proof.
  split; [reflexivity|]. split; [reflexivity|]. split; [reflexivity|].
  split; [reflexivity|]. split; [reflexivity|]. split; [reflexivity|].
  apply (find_deals_repeat float_other_rejects paris_feed paris_prefs
           (prefs_of [] [] None) (float_of_Z 1000) (float_of_Z 1001)
           (float_of_Z 1200) (float_of_Z 1201) (world_of cache_init)
           [nyc_paris] [nyc_paris]); reflexivity.
Defined.
